(** * Twitter sentiment analysis: the collection-and-classification pipeline

    A shallow embedding of [Twitter_Sentiment_Analysis.py]: the tweet
    normalizer [clean_tweet] (four [re.sub] passes) and the aggregator
    [get_tweets_and_sentiment] (the paging loop, the per-tweet [try] block
    and the per-hashtag result lists), with the properties the
    specification states about them.

    Text is a list of characters over the 8-bit range (code points 0..255 of
    a Python [str]).  Counts are Python integers, so [Z].  Polarities are
    Python floats, so binary64 [float]s.  The [tweepy] search and the
    [textblob] sentence splitter and scorer are outside the program: they
    are parameters of the aggregator. *)

From Stdlib Require Import List String Ascii ZArith Lia Bool Floats.
Import ListNotations.

Local Open Scope Z_scope.

(** ** Strings *)

Definition str := list ascii.

(** A text literal. *)
Definition txt (s : string) : str := list_ascii_of_string s.

(** * Regular expressions, as far as the program uses them *)

Module Re.

(** [\w] of a [str] pattern on the code points below 256: the alphanumeric
  characters and the underscore.  Beyond ASCII these are the Latin-1
  letters and the numeric signs (superscripts and fractions). *)
Definition is_word (c : ascii) : bool :=
let n := N.to_nat (N_of_ascii c) in
((48 <=? n) && (n <=? 57)        (* 0-9 *)
 || (65 <=? n) && (n <=? 90)     (* A-Z *)
 || (n =? 95)                    (* _ *)
 || (97 <=? n) && (n <=? 122)    (* a-z *)
 || (n =? 170) || (n =? 178) || (n =? 179) || (n =? 181)
 || (n =? 185) || (n =? 186)
 || (188 <=? n) && (n <=? 190)
 || (192 <=? n) && (n <=? 214)
 || (216 <=? n) && (n <=? 246)
 || (248 <=? n))%nat.

(** [\W]. *)
Definition non_word (c : ascii) : bool := negb (is_word c).

(** The patterns of the program are built from literal characters, [.],
  a greedy run [\w+] or [\W+], concatenation and alternation; [Eps], the
  empty pattern, closes a literal word. *)
Inductive pattern : Type :=
| Eps
| Chr (c : ascii)
| AnyChr
| Run (cls : ascii -> bool)
| Cat (p q : pattern)
| Or (p q : pattern).

(** Length of the longest prefix of [s] whose characters are all in [cls]. *)
Fixpoint run_length (cls : ascii -> bool) (s : str) : nat :=
match s with
| c :: s' => if cls c then S (run_length cls s') else O
| [] => O
end.

Definition newline : ascii := ascii_of_nat 10.

(** [match_at p s]: the number of characters the pattern takes when it is
  tried at the start of [s], or [None] when it does not match there.  A
  run takes as many characters as it can and is never shortened
  afterwards; alternatives are tried left to right.  For the patterns
  below this is what [re] finds: every run closes its alternative, so
  nothing after it could ask for a shorter one. *)
Fixpoint match_at (p : pattern) (s : str) : option nat :=
match p with
| Eps => Some O
| Chr c =>
    match s with
    | d :: _ => if Ascii.eqb c d then Some 1%nat else None
    | [] => None
    end
| AnyChr =>
    match s with
    | d :: _ => if Ascii.eqb d newline then None else Some 1%nat
    | [] => None
    end
| Run cls =>
    match run_length cls s with
    | O => None
    | n => Some n
    end
| Cat p q =>
    match match_at p s with
    | Some n =>
        match match_at q (skipn n s) with
        | Some m => Some (n + m)%nat
        | None => None
        end
    | None => None
    end
| Or p q =>
    match match_at p s with
    | Some n => Some n
    | None => match_at q s
    end
end.

(** The scan of [re.sub]: [skip] counts the characters still covered by
  the match that was just replaced.  At a position outside a match the
  pattern is tried; a match is replaced by [repl], anything else is
  copied.  None of the program's patterns matches the empty string. *)
Fixpoint sub_from (p : pattern) (repl : str) (skip : nat) (s : str) : str :=
match s with
| [] => []
| c :: s' =>
    match skip with
    | S k => sub_from p repl k s'
    | O =>
        match match_at p s with
        | Some (S n) => repl ++ sub_from p repl n s'
        | _ => c :: sub_from p repl O s'
        end
    end
end.

(** [re.sub(pattern, repl, string)]. *)
Definition sub (p : pattern) (repl : str) (s : str) : str :=
sub_from p repl O s.

(** A literal word. *)
Fixpoint word (w : str) : pattern :=
match w with
| [] => Eps
| c :: w' => Cat (Chr c) (word w')
end.

End Re.

Import Re.

(** * The normalizer *)

(** [r'@\w+|https://\w+|www.\w+'] *)
Definition mention_or_link : pattern :=
  Or (Cat (Chr "@") (Run is_word))
     (Or (Cat (word (txt "https://")) (Run is_word))
         (Cat (word (txt "www")) (Cat AnyChr (Run is_word)))).

(** [clean_tweet], lines 23-28. *)
Definition clean_tweet (tweet : str) : str :=
  let cleaned_tweet := sub mention_or_link [] tweet in
  let cleaned_tweet := sub (Run non_word) (txt " ") cleaned_tweet in
  let cleaned_tweet := sub (Chr "#") [] cleaned_tweet in
  let cleaned_tweet := sub (word (txt "RT")) [] cleaned_tweet in
  cleaned_tweet.

(** * The aggregator *)

(** The API handle [setup_twitter] builds: the credentials it was given. *)
Record API : Type := {
  consumer_key : str;
  consumer_secret_token : str;
  access_token : str;
  access_secret_token : str
}.

(** [setup_twitter], lines 31-45: a missing variable raises [KeyError]
    inside the [try], and [api] stays [None].  The calls of lines 39-41 are
    taken to return. *)
Definition setup_twitter (environ : str -> option str) : option API :=
  match environ (txt "TWITTER_API_KEY"),
        environ (txt "TWITTER_API_SECRET_KEY"),
        environ (txt "TWITTER_ACCESS_TOKEN"),
        environ (txt "TWITTER_ACCESS_SECRET_TOKEN") with
  | Some k, Some ks, Some t, Some ts =>
      Some {| consumer_key := k; consumer_secret_token := ks;
              access_token := t; access_secret_token := ts |}
  | _, _, _, _ => None
  end.

(** The local variables of one hashtag's analysis, lines 55-60. *)
Record counts : Type := {
  positive_tweets : Z;
  negative_tweets : Z;
  neutral_tweets : Z;
  analyzed_tweets : Z;
  text : list str
}.

Definition tally_sum (c : counts) : Z :=
  positive_tweets c + negative_tweets c + neutral_tweets c.

(** What the run does to the outside: the searches it issued, as
    (query, count) in order, and the word cloud images it saved, as
    (file name, text). *)
Record world : Type := {
  requests : list (str * Z);
  word_clouds : list (str * str)
}.

(** The [results] dictionary, line 52. *)
Record results : Type := {
  positive : list Z;
  negative : list Z;
  neutral : list Z
}.

(** What [get_tweets_and_sentiment] returns: the message of line 51 or the
    dictionary of line 89. *)
Inductive returned : Type :=
| Message (m : str)
| Results (r : results).

(** A block that ran to its end, or one left by an exception; the
    variables it assigned keep their values either way. *)
Inductive outcome : Type :=
| Completed (c : counts)
| Raised (c : counts).

(** [.items(limit)] of a [tweepy] cursor: the first [limit] tweets found; a
    limit that is not positive is no limit. *)
Definition items (limit : Z) (found : list str) : list str :=
  if 0 <? limit then firstn (Z.to_nat limit) found else found.

(** [' '.join(text)]. *)
Fixpoint join (sep : str) (l : list str) : str :=
  match l with
  | [] => []
  | [s] => s
  | s :: l' => s ++ sep ++ join sep l'
  end.

(** Lines 72-77. *)
Definition count_polarity (c : counts) (polarity : float) : counts :=
  if (0 <? polarity)%float then
    {| positive_tweets := positive_tweets c + 1;
       negative_tweets := negative_tweets c;
       neutral_tweets := neutral_tweets c;
       analyzed_tweets := analyzed_tweets c; text := text c |}
  else if (polarity <? 0)%float then
    {| positive_tweets := positive_tweets c;
       negative_tweets := negative_tweets c + 1;
       neutral_tweets := neutral_tweets c;
       analyzed_tweets := analyzed_tweets c; text := text c |}
  else
    {| positive_tweets := positive_tweets c;
       negative_tweets := negative_tweets c;
       neutral_tweets := neutral_tweets c + 1;
       analyzed_tweets := analyzed_tweets c; text := text c |}.

Definition append_text (c : counts) (cleaned_tweet : str) : counts :=
  {| positive_tweets := positive_tweets c;
     negative_tweets := negative_tweets c;
     neutral_tweets := neutral_tweets c;
     analyzed_tweets := analyzed_tweets c;
     text := text c ++ [cleaned_tweet] |}.

Definition count_analyzed (c : counts) : counts :=
  {| positive_tweets := positive_tweets c;
     negative_tweets := negative_tweets c;
     neutral_tweets := neutral_tweets c;
     analyzed_tweets := analyzed_tweets c + 1;
     text := text c |}.

(** Line 63-64. *)
Definition count_per_request (number_of_tweets analyzed last_window : Z) : Z :=
  if number_of_tweets - analyzed =? last_window then last_window else 100.

(** A search is issued, line 65. *)
Definition log_request (w : world) (q : str) (count : Z) : world :=
  {| requests := requests w ++ [(q, count)]; word_clouds := word_clouds w |}.

(** Lines 83-84: the word cloud of the hashtag's texts is generated and
    saved; both calls are taken to return. *)
Definition save_word_cloud (w : world) (hashtag : str) (c : counts) : world :=
  {| requests := requests w;
     word_clouds := word_clouds w ++
       [(txt "Word_Cloud_" ++ hashtag ++ txt ".png", join (txt " ") (text c))] |}.

Section Aggregator.

(** [Cursor(api.search, q=hashtag, lang='en')]: the texts of the tweets
    the search finds for a query, in the order the cursor yields them.
    Every request opens a new cursor; the second argument is the number
    of searches the run issued before this one.  The search is taken to
    answer: an error of the network is outside this model. *)
Variable search : str -> nat -> list str.

(** [TextBlob(cleaned_tweet).sentences]; [None] when it raises. *)
Variable sentences : str -> option (list str).

(** [sentence.sentiment.polarity]; [None] when it raises. *)
Variable polarity : str -> option float.

(** The loop over the sentences, lines 70-77. *)
Fixpoint for_sentences (ss : list str) (c : counts) : outcome :=
  match ss with
  | [] => Completed c
  | sentence :: ss' =>
      match polarity sentence with
      | Some p => for_sentences ss' (count_polarity c p)
      | None => Raised c
      end
  end.

(** The body of the loop over the tweets, lines 66-80: the [try] block
    and its [except Exception: continue]. *)
Definition analyze_tweet (c : counts) (tweet : str) : counts :=
  let cleaned_tweet := clean_tweet tweet in
  let c := append_text c cleaned_tweet in
  match sentences cleaned_tweet with
  | None => c
  | Some ss =>
      match for_sentences ss c with
      | Completed c' => count_analyzed c'
      | Raised c' => c'
      end
  end.

(** One turn of the [while] loop, lines 62-80: the size of the request,
    the request, and the loop over the tweets it yields. *)
Definition analyze_page (hashtag : str) (number_of_tweets last_window : Z)
    (c : counts) (w : world) : counts * world :=
  let count_per_request :=
    count_per_request number_of_tweets (analyzed_tweets c) last_window in
  let found := search hashtag (List.length (requests w)) in
  (fold_left analyze_tweet (items count_per_request found) c,
   log_request w hashtag count_per_request).

(** The [while] loop of lines 61-81; [fuel] bounds the number of
    requests, and [None] says the loop is still running when it is
    spent. *)
Fixpoint while_analyzing (fuel : nat) (hashtag : str)
    (number_of_tweets last_window : Z) (c : counts) (w : world)
    : option (counts * world) :=
  if analyzed_tweets c <? number_of_tweets then
    match fuel with
    | O => None
    | S fuel' =>
        let (c, w) := analyze_page hashtag number_of_tweets last_window c w in
        while_analyzing fuel' hashtag number_of_tweets last_window c w
    end
  else Some (c, w).

(** The body of the loop over the hashtags up to the word cloud, lines
    54-85. *)
Definition analyze_hashtag (fuel : nat) (hashtag : str)
    (number_of_tweets : Z) (w : world) : option (counts * world) :=
  let c := {| positive_tweets := 0; negative_tweets := 0;
              neutral_tweets := 0; analyzed_tweets := 0; text := [] |} in
  let last_window := number_of_tweets mod 100 in
  match while_analyzing fuel hashtag number_of_tweets last_window c w with
  | Some (c, w) => Some (c, save_word_cloud w hashtag c)
  | None => None
  end.

(** Lines 86-88. *)
Definition append_counts (r : results) (c : counts) : results :=
  {| positive := positive r ++ [positive_tweets c];
     negative := negative r ++ [negative_tweets c];
     neutral := neutral r ++ [neutral_tweets c] |}.

(** The loop over the hashtags, lines 53-88. *)
Fixpoint for_hashtags (fuel : nat) (hashtags : list str)
    (number_of_tweets : Z) (r : results) (w : world)
    : option (results * world) :=
  match hashtags with
  | [] => Some (r, w)
  | hashtag :: hashtags' =>
      match analyze_hashtag fuel hashtag number_of_tweets w with
      | Some (c, w) =>
          for_hashtags fuel hashtags' number_of_tweets (append_counts r c) w
      | None => None
      end
  end.

(** [get_tweets_and_sentiment], lines 48-89. *)
Definition get_tweets_and_sentiment (fuel : nat) (environ : str -> option str)
    (hashtags : list str) (number_of_tweets : Z) (w : world)
    : option (returned * world) :=
  let api := setup_twitter environ in
  match api with
  | None =>
      Some (Message (txt "Twitter setup failed! Please check your credentials!"), w)
  | Some _ =>
      let results := {| positive := []; negative := []; neutral := [] |} in
      match for_hashtags fuel hashtags number_of_tweets results w with
      | Some (r, w) => Some (Results r, w)
      | None => None
      end
  end.

(** The hashtags analysed one after the other, each from the world the
    one before it left: the counts of each, in order. *)
Inductive analyzed_in_order (fuel : nat) (number_of_tweets : Z)
    : list str -> world -> list counts -> world -> Prop :=
| in_order_nil : forall w,
    analyzed_in_order fuel number_of_tweets [] w [] w
| in_order_cons : forall hashtag hashtags w c w1 cs w2,
    analyze_hashtag fuel hashtag number_of_tweets w = Some (c, w1) ->
    analyzed_in_order fuel number_of_tweets hashtags w1 cs w2 ->
    analyzed_in_order fuel number_of_tweets (hashtag :: hashtags) w (c :: cs) w2.

(** A sentence the scorer gives a polarity. *)
Definition scored (sentence : str) : bool :=
  match polarity sentence with
  | Some _ => true
  | None => false
  end.

(** A tweet the [try] block analyses to its end. *)
Definition classifies (tweet : str) : bool :=
  match sentences (clean_tweet tweet) with
  | Some ss => forallb scored ss
  | None => false
  end.

End Aggregator.

(** * The main block *)

(** The pattern of line 95 uses two more constructs: one character of a
    class, and the anchor [^], which without [re.M] holds at the start of
    the string only. *)
Inductive anchored : Type :=
| Plain (p : pattern)
| Cls (cls : ascii -> bool)
| Bol
| Then (a b : anchored).

(** [match_anchored a pos s]: as [match_at], for a text [s] that starts at
    index [pos] of the string. *)
Fixpoint match_anchored (a : anchored) (pos : nat) (s : str) : option nat :=
  match a with
  | Plain p => match_at p s
  | Cls cls =>
      match s with
      | d :: _ => if cls d then Some 1%nat else None
      | [] => None
      end
  | Bol => if (pos =? 0)%nat then Some O else None
  | Then a b =>
      match match_anchored a pos s with
      | Some n =>
          match match_anchored b (pos + n) (skipn n s) with
          | Some m => Some (n + m)%nat
          | None => None
          end
      | None => None
      end
  end.

(** The scan of [re.sub] with the index of the current character. *)
Fixpoint sub_anchored_from (a : anchored) (repl : str) (pos skip : nat) (s : str)
    : str :=
  match s with
  | [] => []
  | c :: s' =>
      match skip with
      | S k => sub_anchored_from a repl (S pos) k s'
      | O =>
          match match_anchored a pos s with
          | Some (S n) => repl ++ sub_anchored_from a repl (S pos) n s'
          | _ => c :: sub_anchored_from a repl (S pos) O s'
          end
      end
  end.

Definition sub_anchored (a : anchored) (repl : str) (s : str) : str :=
  sub_anchored_from a repl O O s.

(** [r'\W&^,'], line 95. *)
Definition junk : anchored :=
  Then (Cls non_word) (Then (Plain (Chr "&")) (Then Bol (Plain (Chr ",")))).

(** [s.split(sep)] for a separator of one character; [piece] is the piece
    being read. *)
Fixpoint split_from (sep : ascii) (piece : str) (s : str) : list str :=
  match s with
  | [] => [piece]
  | c :: s' =>
      if Ascii.eqb c sep then piece :: split_from sep [] s'
      else split_from sep (piece ++ [c]) s'
  end.

Definition split (sep : ascii) (s : str) : list str := split_from sep [] s.

(** [s.replace(old, new)] for single characters. *)
Definition replace (old new : ascii) (s : str) : str :=
  map (fun c => if Ascii.eqb c old then new else c) s.

(** Lines 95-97: the list of hashtags read from the first input. *)
Definition read_hashtags (hashtags_set : str) : list str :=
  let hashtags := sub_anchored junk [] hashtags_set in
  let hashtags := split "," hashtags in
  map (fun hashtag => "#"%char :: hashtag) hashtags.

(** What the two [plot] calls of lines 105-122 are given. *)
Record figures : Type := {
  bar_x : list str;
  bar_positive : list Z;
  bar_negative : list Z;
  bar_neutral : list Z;
  bar_title : str;
  bar_filename : str;
  table_cells : list str * list Z * list Z * list Z;
  table_filename : str
}.

(** How the main block ends: with the figures plotted, or in its
    [except] clause with the error printed. *)
Inductive ending : Type :=
| Plotted (f : figures)
| ErrorPrinted.

Section Main.

Variable search : str -> nat -> list str.
Variable sentences : str -> option (list str).
Variable polarity : str -> option float.

(** The builtin [int] on a string; [None] when it raises [ValueError]. *)
Variable int : str -> option Z.

(** Lines 93-126; the two inputs are the lines the user types.  Indexing
    the message of a failed set-up with ['positive'] raises [TypeError],
    which the [except] clause catches like the [ValueError] of [int].  The
    calls of [plot] are taken to return. *)
Definition main (fuel : nat) (environ : str -> option str)
    (hashtags_set count : str) (w : world) : option (ending * world) :=
  let hashtags := read_hashtags hashtags_set in
  let hash_set := replace "," "_" hashtags_set in
  match int count with
  | None => Some (ErrorPrinted, w)
  | Some number_of_tweets =>
      match get_tweets_and_sentiment search sentences polarity fuel environ
              hashtags number_of_tweets w with
      | Some (Results results, w) =>
          Some (Plotted
                  {| bar_x := hashtags;
                     bar_positive := positive results;
                     bar_negative := negative results;
                     bar_neutral := neutral results;
                     bar_title :=
                       txt "Bar Plot for Tweet Analysis of Hashtags " ++ hashtags_set;
                     bar_filename := txt "Bar_Plot_" ++ hash_set ++ txt ".html";
                     table_cells :=
                       (hashtags, positive results, negative results,
                        neutral results);
                     table_filename := txt "Table_" ++ hash_set ++ txt ".html" |},
                w)
      | Some (Message _, w) => Some (ErrorPrinted, w)
      | None => None
      end
  end.

End Main.

(** * Collaborators and inputs of the examples *)

Module Examples.

Fixpoint eqb_str (a b : str) : bool :=
  match a, b with
  | [], [] => true
  | c :: a', d :: b' => Ascii.eqb c d && eqb_str a' b'
  | _, _ => false
  end.

(** A splitter that takes the whole text as one sentence. *)
Definition whole_text (s : str) : option (list str) := Some [s].

Fixpoint words_from (word_so_far s : str) : list str :=
  match s with
  | [] =>
      match word_so_far with
      | [] => []
      | _ => [word_so_far]
      end
  | c :: s' =>
      if Ascii.eqb c " " then
        match word_so_far with
        | [] => words_from [] s'
        | _ => word_so_far :: words_from [] s'
        end
      else words_from (word_so_far ++ [c]) s'
  end.

(** A splitter that takes every word as a sentence. *)
Definition each_word (s : str) : option (list str) := Some (words_from [] s).

(** A scorer: [good] is positive, [bad] negative, [crash] makes it raise,
    anything else is neutral. *)
Definition lexicon (s : str) : option float :=
  if eqb_str s (txt "good") then Some 0.5%float
  else if eqb_str s (txt "bad") then Some (-0.5)%float
  else if eqb_str s (txt "crash") then None
  else Some 0%float.

(** An environment without credentials, and one with all of them. *)
Definition no_environ (name : str) : option str := None.
Definition full_environ (name : str) : option str := Some (txt "secret").

(** Nothing has happened yet. *)
Definition start : world := {| requests := []; word_clouds := [] |}.

(** A search that finds the same two tweets whenever it is asked. *)
Definition two_tweets (q : str) (n : nat) : list str :=
  [txt "good bad"; txt "ok"].

(** A search that finds a hundred tweets at each of the first two
    requests and nothing from then on: 200 matching tweets in all. *)
Definition two_hundred (q : str) (n : nat) : list str :=
  if (n <? 2)%nat then repeat (txt "nice weather") 100 else [].

(** A search that always finds a hundred tweets, the first of which makes
    the scorer raise. *)
Definition hundred_with_crash (q : str) (n : nat) : list str :=
  txt "crash" :: repeat (txt "ok") 99.

(** A search whose finds depend on the hashtag. *)
Definition by_hashtag (q : str) (n : nat) : list str :=
  if eqb_str q (txt "#cats") then [txt "good good"; txt "ok"] else [txt "bad"].

(** A search that always finds a hundred and twenty tweets. *)
Definition plenty (q : str) (n : nat) : list str :=
  repeat (txt "@bob what a good day") 120.

(** A splitter in the manner of a sentence tokenizer on a text without
    punctuation: no sentence in a text without a word character, one
    sentence otherwise. *)
Definition one_or_none (s : str) : option (list str) :=
  if existsb is_word s then Some [s] else Some [].

(** A search that finds the same four tweets whenever it is asked; the
    first is nothing but a mention. *)
Definition four_tweets (q : str) (n : nat) : list str :=
  [txt "@bob"; txt "nice day"; txt "good"; txt "bad"].

(** A reading of [int] on strings of decimal digits; anything else makes
    it raise. *)
Fixpoint decimal_from (acc : Z) (s : str) : option Z :=
  match s with
  | [] => Some acc
  | c :: s' =>
      let n := nat_of_ascii c in
      if ((48 <=? n) && (n <=? 57))%nat
      then decimal_from (10 * acc + Z.of_nat (n - 48)) s'
      else None
  end.

Definition decimal (s : str) : option Z :=
  match s with
  | [] => None
  | _ => decimal_from 0 s
  end.

End Examples.

(** * Vocabulary of the statements *)

(** A word character or a space. *)
Definition word_or_space (c : ascii) : Prop :=
  is_word c = true \/ c = " "%char.

(** [starts_with w s]: [s] begins with the word [w]. *)
Fixpoint starts_with (w s : str) : bool :=
  match w, s with
  | [], _ => true
  | c :: w', d :: s' => Ascii.eqb c d && starts_with w' s'
  | _ :: _, [] => false
  end.

(** [occurs here s]: the test [here] holds at some position of [s]. *)
Fixpoint occurs (here : str -> bool) (s : str) : bool :=
  here s ||
  match s with
  | [] => false
  | _ :: s' => occurs here s'
  end.

(** [contains w s]: the word [w] is a substring of [s]. *)
Definition contains (w s : str) : bool := occurs (starts_with w) s.

(** [www], one more character that is not a line break, and a word
    character: where the third alternative of [mention_or_link] matches. *)
Definition www_link_here (s : str) : bool :=
  match s with
  | c1 :: c2 :: c3 :: c :: d :: _ =>
      Ascii.eqb "w" c1 && Ascii.eqb "w" c2 && Ascii.eqb "w" c3 &&
      negb (Ascii.eqb c newline) && is_word d
  | _ => false
  end.

(** [matches p s]: the pattern takes at least one character at the start
    of [s], so [re.sub] replaces there. *)
Definition matches (p : pattern) (s : str) : bool :=
  match match_at p s with
  | Some (S _) => true
  | _ => false
  end.

(** The counts a hashtag starts from, lines 55-60. *)
Definition zero_counts : counts :=
  {| positive_tweets := 0; negative_tweets := 0; neutral_tweets := 0;
     analyzed_tweets := 0; text := [] |}.

(** The tally of a hashtag: positive, negative and neutral. *)
Definition tally (c : counts) : Z * Z * Z :=
  (positive_tweets c, negative_tweets c, neutral_tweets c).

(** The number of sentences the loop of lines 70-77 counts: those before
    the first one at which the scorer raises. *)
Fixpoint counted_sentences (polarity : str -> option float) (ss : list str) : nat :=
  match ss with
  | [] => O
  | s :: ss' =>
      match polarity s with
      | Some _ => S (counted_sentences polarity ss')
      | None => O
      end
  end.

(** The number of sentences a tweet adds to the tally. *)
Definition counted (sentences : str -> option (list str))
    (polarity : str -> option float) (tweet : str) : nat :=
  match sentences (clean_tweet tweet) with
  | Some ss => counted_sentences polarity ss
  | None => O
  end.

(** The file name of a hashtag's word cloud, line 84. *)
Definition word_cloud_filename (hashtag : str) : str :=
  txt "Word_Cloud_" ++ hashtag ++ txt ".png".

(** Two states of the counts that differ at most in [text]. *)
Definition same_counts (c c' : counts) : Prop :=
  tally c = tally c' /\ analyzed_tweets c = analyzed_tweets c'.

(** The number of polarities of a list that pass a test. *)
Definition count_of (test : float -> bool) (ps : list float) : Z :=
  Z.of_nat (List.length (filter test ps)).

Section Reached.

Variable search : str -> nat -> list str.
Variable sentences : str -> option (list str).
Variable polarity : str -> option float.
Variable hashtag : str.
Variable number_of_tweets : Z.

(** The states the [while] loop of a hashtag goes through when it starts
    from the counts [c0] in the world [w0]: one turn of the loop leads from
    a state below the target to the next. *)
Inductive reached (c0 : counts) (w0 : world) : counts -> world -> Prop :=
| reached_start : reached c0 w0 c0 w0
| reached_page : forall c w,
    reached c0 w0 c w ->
    analyzed_tweets c < number_of_tweets ->
    reached c0 w0
      (fst (analyze_page search sentences polarity hashtag number_of_tweets
              (number_of_tweets mod 100) c w))
      (snd (analyze_page search sentences polarity hashtag number_of_tweets
              (number_of_tweets mod 100) c w)).

End Reached.

(** The variables a block leaves behind, however it ended. *)
Definition counts_of (o : outcome) : counts :=
  match o with
  | Completed c => c
  | Raised c => c
  end.

(** * Properties of the normalizer *)

#[local] Arguments Ascii.eqb : simpl never.

Section Substitution.

Variable P : ascii -> Prop.
Variable p : pattern.

(** What a substitution leaves is made of the replacement and of the
    characters at which the pattern did not match. *)
Lemma sub_from_Forall (repl : str) :
  Forall P repl ->
  (forall c s, match match_at p (c :: s) with
               | Some (S _) => True
               | _ => P c
               end) ->
  forall s skip, Forall P (sub_from p repl skip s).
Proof.
  intros Hrepl Hcopy s.
  induction s as [|c s IH]; intros skip; simpl; [constructor|].
  destruct skip as [|k]; [|apply IH].
  specialize (Hcopy c s).
  destruct (match_at p (c :: s)) as [[|n]|].
  - constructor; [exact Hcopy | apply IH].
  - apply Forall_app; split; [exact Hrepl | apply IH].
  - constructor; [exact Hcopy | apply IH].
Qed.

(** A deletion keeps only characters of its input. *)
Lemma sub_from_delete_Forall :
  forall s skip, Forall P s -> Forall P (sub_from p [] skip s).
Proof.
  induction s as [|c s IH]; intros skip Hs; simpl; [constructor|].
  inversion Hs as [|c' s' Hc Hs']; subst.
  destruct skip as [|k]; [|apply IH; exact Hs'].
  destruct (match_at p (c :: s)) as [[|n]|]; simpl;
    try (constructor; [exact Hc|]); apply IH; exact Hs'.
Qed.

End Substitution.

(** Where [\W+] does not match, the character is a word character. *)
Lemma non_word_run_unmatched (c : ascii) (s : str) :
  match match_at (Run non_word) (c :: s) with
  | Some (S _) => True
  | _ => word_or_space c
  end.
Proof.
  simpl. unfold non_word at 1.
  destruct (is_word c) eqn:Hc; simpl; [left; exact Hc | exact I].
Qed.

Lemma clean_tweet_word_or_space (tweet : str) :
  Forall word_or_space (clean_tweet tweet).
Proof.
  unfold clean_tweet, sub.
  do 2 apply sub_from_delete_Forall.
  apply sub_from_Forall.
  - constructor; [right; reflexivity | constructor].
  - exact non_word_run_unmatched.
Qed.

(** ** Texts the normalizer leaves as they are *)

Lemma occurs_cons_false (here : str -> bool) (c : ascii) (s : str) :
  occurs here (c :: s) = false ->
  here (c :: s) = false /\ occurs here s = false.
Proof. simpl. intros H. apply orb_false_elim in H. exact H. Qed.

(** On a text made of characters in [P], a test that is excluded wherever
    another one fails occurs nowhere when the other occurs nowhere. *)
Lemma occurs_false_weaken (P : ascii -> Prop) (f g : str -> bool) :
  (forall s, Forall P s -> g s = false -> f s = false) ->
  forall s, Forall P s -> occurs g s = false -> occurs f s = false.
Proof.
  intros Hfg s.
  induction s as [|c s IH]; intros HP Hg.
  - simpl in *. apply orb_false_elim in Hg. destruct Hg as [Hg _].
    rewrite (Hfg [] HP Hg). reflexivity.
  - apply occurs_cons_false in Hg. destruct Hg as [Hg Hs].
    simpl. rewrite (Hfg _ HP Hg). simpl.
    apply IH; [inversion HP; assumption | exact Hs].
Qed.

(** A pattern that matches nowhere replaces nothing. *)
Lemma sub_unmatched (p : pattern) (repl s : str) :
  occurs (matches p) s = false -> sub p repl s = s.
Proof.
  unfold sub.
  induction s as [|c s IH]; intros H; [reflexivity|].
  apply occurs_cons_false in H. destruct H as [Hc Hs].
  simpl. unfold matches in Hc.
  destruct (match_at p (c :: s)) as [[|n]|];
    try discriminate; rewrite (IH Hs); reflexivity.
Qed.

Lemma match_at_Or (p q : pattern) (s : str) :
  match_at (Or p q) s =
  match match_at p s with Some n => Some n | None => match_at q s end.
Proof. reflexivity. Qed.

Lemma match_at_Cat (p q : pattern) (s : str) :
  match_at (Cat p q) s =
  match match_at p s with
  | Some n =>
      match match_at q (skipn n s) with
      | Some m => Some (n + m)%nat
      | None => None
      end
  | None => None
  end.
Proof. reflexivity. Qed.

(** A literal word matches exactly where the text starts with it. *)
Lemma match_at_word (w s : str) :
  match_at (word w) s =
  if starts_with w s then Some (List.length w) else None.
Proof.
  revert s. induction w as [|c w IH]; intros s; simpl.
  - reflexivity.
  - destruct s as [|d s]; [reflexivity|].
    destruct (Ascii.eqb c d); simpl; [|reflexivity].
    rewrite IH. destruct (starts_with w s); reflexivity.
Qed.

Lemma starts_with_app (w s : str) :
  starts_with w s = true -> s = w ++ skipn (List.length w) s.
Proof.
  revert s. induction w as [|c w IH]; intros s H; [reflexivity|].
  destruct s as [|d s]; [discriminate|].
  simpl in H. apply andb_true_iff in H. destruct H as [Hc Hw].
  apply Ascii.eqb_eq in Hc. subst d.
  simpl. f_equal. apply IH. exact Hw.
Qed.

Lemma word_or_space_neq (c d : ascii) :
  word_or_space d -> is_word c = false -> c <> " "%char -> Ascii.eqb c d = false.
Proof.
  intros Hd Hc Hsp. apply Ascii.eqb_neq. intros ->.
  destruct Hd as [Hd | Hd]; [congruence | contradiction].
Qed.

(** No mention and no [https://] link starts in a text of word characters
    and spaces; a [www] link starts only where [www_link_here] says. *)
Lemma mention_or_link_unmatched (s : str) :
  Forall word_or_space s ->
  www_link_here s = false ->
  matches mention_or_link s = false.
Proof.
  intros Hs Hwww. unfold matches, mention_or_link.
  rewrite !match_at_Or, !match_at_Cat.
  assert (Hat : match_at (Chr "@") s = None).
  { destruct s as [|d s]; [reflexivity|]. simpl.
    inversion Hs; subst.
    rewrite (word_or_space_neq "@" d); [reflexivity | assumption | reflexivity | discriminate]. }
  rewrite Hat.
  rewrite (match_at_word (txt "https://") s).
  destruct (starts_with (txt "https://") s) eqn:Hhttps.
  { exfalso. apply starts_with_app in Hhttps.
    rewrite Hhttps in Hs. apply Forall_app in Hs. destruct Hs as [Hs _].
    rewrite Forall_forall in Hs.
    destruct (Hs ":"%char) as [H | H]; [simpl; tauto | discriminate | discriminate]. }
  rewrite (match_at_word (txt "www") s).
  destruct s as [|c1 [|c2 [|c3 s]]]; try reflexivity.
  - simpl. destruct (Ascii.eqb "w" c1); reflexivity.
  - simpl. destruct (Ascii.eqb "w" c1), (Ascii.eqb "w" c2); reflexivity.
  - simpl in *.
    destruct (Ascii.eqb "w" c1), (Ascii.eqb "w" c2), (Ascii.eqb "w" c3);
      simpl in *; try reflexivity.
    destruct s as [|c [|d s]]; [reflexivity | |].
    + simpl. destruct (Ascii.eqb c newline); reflexivity.
    + simpl. destruct (Ascii.eqb c newline); simpl in *; [reflexivity|].
      rewrite Hwww. reflexivity.
Qed.

(** Single spaces between words are replaced by themselves. *)
Lemma collapse_fixed (s : str) :
  Forall word_or_space s ->
  contains (txt "  ") s = false ->
  sub (Run non_word) (txt " ") s = s.
Proof.
  unfold sub, contains. change (txt " ") with [" "%char].
  induction s as [|c s IH]; intros Hs Hsp; [reflexivity|].
  apply occurs_cons_false in Hsp. destruct Hsp as [Hhere Hsp].
  inversion Hs as [|c' s' Hc Hs']; subst.
  specialize (IH Hs' Hsp).
  cbn [sub_from match_at run_length].
  destruct Hc as [Hc | ->].
  - assert (Hn : non_word c = false) by (unfold non_word; rewrite Hc; reflexivity).
    rewrite Hn, IH. reflexivity.
  - replace (non_word " ") with true by reflexivity.
    assert (Hrun : run_length non_word s = O).
    { destruct s as [|d s]; [reflexivity|].
      simpl in Hhere. rewrite andb_true_r in Hhere. apply Ascii.eqb_neq in Hhere.
      inversion Hs' as [|d' s'' Hd _]; subst.
      destruct Hd as [Hd | Hd]; [|congruence].
      simpl. unfold non_word. rewrite Hd. reflexivity. }
    rewrite Hrun, IH. reflexivity.
Qed.

(** There is no hash sign to delete. *)
Lemma hash_fixed (s : str) :
  Forall word_or_space s -> sub (Chr "#") [] s = s.
Proof.
  unfold sub.
  induction s as [|c s IH]; intros Hs; [reflexivity|].
  inversion Hs as [|c' s' Hc Hs']; subst.
  simpl.
  rewrite (word_or_space_neq "#" c); [|assumption|reflexivity|discriminate].
  rewrite (IH Hs'). reflexivity.
Qed.

Lemma word_fixed (w s : str) :
  contains w s = false -> sub (word w) [] s = s.
Proof.
  intros H. apply sub_unmatched.
  apply (occurs_false_weaken (fun _ => True) _ (starts_with w));
    [| apply Forall_forall; trivial | exact H].
  intros s' _ Hw. unfold matches. rewrite match_at_word, Hw. reflexivity.
Qed.

(** The texts the normalizer does not change: word characters separated by
    single spaces, without [RT] and without a [www] link. *)
Lemma clean_tweet_fixed (s : str) :
  Forall word_or_space s ->
  contains (txt "RT") s = false ->
  contains (txt "  ") s = false ->
  occurs www_link_here s = false ->
  clean_tweet s = s.
Proof.
  intros Hs Hrt Hsp Hwww. unfold clean_tweet.
  rewrite (sub_unmatched mention_or_link).
  2:{ apply (occurs_false_weaken word_or_space _ www_link_here);
        [exact mention_or_link_unmatched | exact Hs | exact Hwww]. }
  rewrite (collapse_fixed s Hs Hsp).
  rewrite (hash_fixed s Hs).
  apply word_fixed. exact Hrt.
Qed.

(** ** The claims about the normalizer *)

(** C4 (amended): a second pass of the normalizer changes nothing when the
    first pass left no [RT], no two adjacent spaces and no [www] followed by
    a character and a word character: for every tweet whose normalized text
    is free of these three, normalizing that text again returns it
    unchanged. *)
Theorem C4_clean_tweet_idempotent_when_settled (tweet : str) :
  contains (txt "RT") (clean_tweet tweet) = false ->
  contains (txt "  ") (clean_tweet tweet) = false ->
  occurs www_link_here (clean_tweet tweet) = false ->
  clean_tweet (clean_tweet tweet) = clean_tweet tweet.
Proof.
  intros Hrt Hsp Hwww.
  apply clean_tweet_fixed; try assumption.
  apply clean_tweet_word_or_space.
Qed.

Lemma C4_witness :
  clean_tweet (txt "RT @user: hello #world https://t.co/x!") = txt " hello world co x " /\
  clean_tweet (clean_tweet (txt "RT @user: hello #world https://t.co/x!")) =
  clean_tweet (txt "RT @user: hello #world https://t.co/x!").
Proof.
  split; [reflexivity|].
  apply (C4_clean_tweet_idempotent_when_settled
           (txt "RT @user: hello #world https://t.co/x!")); reflexivity.
Defined.

(** C4 is not true as stated: deleting [RT] after the runs were collapsed
    leaves two spaces side by side, which a second pass collapses. *)
Lemma C4_counterexample :
  clean_tweet (txt "hello RT world") = txt "hello  world" /\
  clean_tweet (clean_tweet (txt "hello RT world")) = txt "hello world" /\
  clean_tweet (clean_tweet (txt "hello RT world")) <>
  clean_tweet (txt "hello RT world").
Proof.
  split; [reflexivity|]. split; [reflexivity|]. discriminate.
Qed.

(** C10: the output of the normalizer consists of word characters
    (letters, digits, underscore) and spaces only. *)
Theorem C10_clean_tweet_word_characters_and_spaces (tweet : str) :
  Forall (fun c => is_word c = true \/ c = " "%char) (clean_tweet tweet).
Proof. exact (clean_tweet_word_or_space tweet). Qed.

(** C5 (amended): for every input text, with or without a link or a
    mention, the output of the normalizer contains no [@] and no [#]. *)
Theorem C5_clean_tweet_no_at_no_hash (tweet : str) :
  ~ In "@"%char (clean_tweet tweet) /\ ~ In "#"%char (clean_tweet tweet).
Proof.
  pose proof (clean_tweet_word_or_space tweet) as H.
  rewrite Forall_forall in H.
  split; intros Hin; destruct (H _ Hin) as [Hw | Hw]; discriminate.
Qed.

(** C5 is not true as stated: [http] and [www] stay when they stand as
    plain words, and the deletion of [RT] inside [RRTT] leaves [RT]. *)
Lemma C5_counterexample :
  matches mention_or_link (txt "@bob http RRTT www") = true /\
  clean_tweet (txt "@bob http RRTT www") = txt " http RT www" /\
  contains (txt "http") (clean_tweet (txt "@bob http RRTT www")) = true /\
  contains (txt "www") (clean_tweet (txt "@bob http RRTT www")) = true /\
  contains (txt " RT ") (clean_tweet (txt "@bob http RRTT www")) = true.
Proof. repeat split. Qed.

(** * Properties of the aggregator *)

Section AggregatorFacts.

Variable search : str -> nat -> list str.
Variable sentences : str -> option (list str).
Variable polarity : str -> option float.

(** ** One tweet *)

Lemma count_polarity_analyzed (c : counts) (p : float) :
  analyzed_tweets (count_polarity c p) = analyzed_tweets c.
Proof.
  unfold count_polarity.
  destruct (0 <? p)%float; [reflexivity|].
  destruct (p <? 0)%float; reflexivity.
Qed.

Lemma count_polarity_tally (c : counts) (p : float) :
  tally_sum (count_polarity c p) = tally_sum c + 1.
Proof.
  unfold count_polarity, tally_sum.
  destruct (0 <? p)%float; [simpl; lia|].
  destruct (p <? 0)%float; simpl; lia.
Qed.

Lemma count_polarity_text (c : counts) (p : float) :
  text (count_polarity c p) = text c.
Proof.
  unfold count_polarity.
  destruct (0 <? p)%float; [reflexivity|].
  destruct (p <? 0)%float; reflexivity.
Qed.

(** The loop over the sentences never touches [analyzed_tweets]. *)
Lemma for_sentences_analyzed (ss : list str) :
  forall c,
    analyzed_tweets (counts_of (for_sentences polarity ss c)) = analyzed_tweets c.
Proof.
  induction ss as [|s ss IH]; intros c; simpl; [reflexivity|].
  destruct (polarity s) as [p|]; [|reflexivity].
  rewrite IH. apply count_polarity_analyzed.
Qed.

(** It runs to its end exactly when every sentence is scored. *)
Lemma for_sentences_completed (ss : list str) :
  forall c,
    match for_sentences polarity ss c with
    | Completed _ => forallb (scored polarity) ss = true
    | Raised _ => forallb (scored polarity) ss = false
    end.
Proof.
  induction ss as [|s ss IH]; intros c; simpl; [reflexivity|].
  unfold scored at 1 3.
  destruct (polarity s) as [p|]; [|reflexivity].
  apply IH.
Qed.

(** A tweet adds one to [analyzed_tweets] when it classifies, and nothing
    otherwise. *)
Lemma analyze_tweet_analyzed (c : counts) (tweet : str) :
  analyzed_tweets (analyze_tweet sentences polarity c tweet) =
  analyzed_tweets c + (if classifies sentences polarity tweet then 1 else 0).
Proof.
  unfold analyze_tweet, classifies.
  destruct (sentences (clean_tweet tweet)) as [ss|]; [|simpl; lia].
  pose proof (for_sentences_analyzed ss (append_text c (clean_tweet tweet))) as Ha.
  pose proof (for_sentences_completed ss (append_text c (clean_tweet tweet))) as Hc.
  destruct (for_sentences polarity ss (append_text c (clean_tweet tweet)));
    rewrite Hc; simpl in *; lia.
Qed.

(** ** One page *)

Lemma fold_analyze_tweet_analyzed (page : list str) :
  forall c,
    analyzed_tweets (fold_left (analyze_tweet sentences polarity) page c) =
    analyzed_tweets c +
    Z.of_nat (List.length (filter (classifies sentences polarity) page)).
Proof.
  induction page as [|t page IH]; intros c; simpl; [lia|].
  rewrite IH, analyze_tweet_analyzed.
  destruct (classifies sentences polarity t); simpl List.length; lia.
Qed.

Lemma items_length_le (n : Z) (found : list str) :
  0 < n -> Z.of_nat (List.length (items n found)) <= n.
Proof.
  intros Hn. unfold items.
  replace (0 <? n) with true by (symmetry; apply Z.ltb_lt; exact Hn).
  rewrite length_firstn. lia.
Qed.

Lemma items_length_full (n : Z) (found : list str) :
  0 < n -> n <= Z.of_nat (List.length found) ->
  Z.of_nat (List.length (items n found)) = n.
Proof.
  intros Hn Hfull. unfold items.
  replace (0 <? n) with true by (symmetry; apply Z.ltb_lt; exact Hn).
  rewrite length_firstn. lia.
Qed.

Lemma items_incl (n : Z) (found : list str) (t : str) :
  In t (items n found) -> In t found.
Proof.
  unfold items. destruct (0 <? n); [|trivial].
  intros H. rewrite <- (firstn_skipn (Z.to_nat n) found).
  apply in_or_app. left. exact H.
Qed.

(** The size of a request, lines 62-64: a hundred or the last window, and
    the last window only when it is what remains. *)
Lemma count_per_request_range (number_of_tweets analyzed : Z) :
  analyzed < number_of_tweets ->
  1 <= count_per_request number_of_tweets analyzed (number_of_tweets mod 100) <= 100 /\
  (count_per_request number_of_tweets analyzed (number_of_tweets mod 100) = 100 \/
   count_per_request number_of_tweets analyzed (number_of_tweets mod 100) =
     number_of_tweets mod 100 /\
   number_of_tweets - analyzed = number_of_tweets mod 100).
Proof.
  intros Hlt. unfold count_per_request.
  pose proof (Z.mod_pos_bound number_of_tweets 100 ltac:(lia)) as Hmod.
  destruct (number_of_tweets - analyzed =? number_of_tweets mod 100) eqn:E.
  - apply Z.eqb_eq in E. lia.
  - lia.
Qed.

(** ** The paging loop *)

Lemma while_analyzing_done (fuel : nat) (hashtag : str) (n lw : Z) (c : counts) (w : world) :
  n <= analyzed_tweets c ->
  while_analyzing search sentences polarity fuel hashtag n lw c w = Some (c, w).
Proof.
  intros H. destruct fuel; simpl;
    replace (analyzed_tweets c <? n) with false
      by (symmetry; apply Z.ltb_ge; exact H);
    reflexivity.
Qed.

Lemma while_analyzing_step (fuel : nat) (hashtag : str) (n lw : Z) (c : counts) (w : world) :
  analyzed_tweets c < n ->
  while_analyzing search sentences polarity (S fuel) hashtag n lw c w =
  while_analyzing search sentences polarity fuel hashtag n lw
    (fst (analyze_page search sentences polarity hashtag n lw c w))
    (snd (analyze_page search sentences polarity hashtag n lw c w)).
Proof.
  intros H. simpl.
  replace (analyzed_tweets c <? n) with true
    by (symmetry; apply Z.ltb_lt; exact H).
  reflexivity.
Qed.

Lemma while_analyzing_spent (hashtag : str) (n lw : Z) (c : counts) (w : world) :
  analyzed_tweets c < n ->
  while_analyzing search sentences polarity O hashtag n lw c w = None.
Proof.
  intros H. simpl.
  replace (analyzed_tweets c <? n) with true
    by (symmetry; apply Z.ltb_lt; exact H).
  reflexivity.
Qed.

(** What every turn of the loop keeps holds when the loop is left, and the
    loop is left only with the target reached. *)
Lemma while_analyzing_invariant (I : counts -> world -> Prop)
    (hashtag : str) (n lw : Z) :
  (forall c w, I c w -> analyzed_tweets c < n ->
     I (fst (analyze_page search sentences polarity hashtag n lw c w))
       (snd (analyze_page search sentences polarity hashtag n lw c w))) ->
  forall fuel c w c' w',
    I c w ->
    while_analyzing search sentences polarity fuel hashtag n lw c w = Some (c', w') ->
    I c' w' /\ n <= analyzed_tweets c'.
Proof.
  intros Hstep fuel.
  induction fuel as [|fuel IH]; intros c w c' w' HI Hrun;
    destruct (Z.lt_ge_cases (analyzed_tweets c) n) as [Hlt | Hge].
  - rewrite while_analyzing_spent in Hrun by exact Hlt. discriminate.
  - rewrite while_analyzing_done in Hrun by exact Hge.
    injection Hrun as <- <-. split; assumption.
  - rewrite while_analyzing_step in Hrun by exact Hlt.
    apply IH in Hrun; [exact Hrun | apply Hstep; assumption].
  - rewrite while_analyzing_done in Hrun by exact Hge.
    injection Hrun as <- <-. split; assumption.
Qed.

(** The loop ends within as many requests as tweets are missing when every
    turn it takes analyses at least one more tweet. *)
Lemma while_analyzing_terminates (hashtag : str) (n : Z) (c0 : counts) (w0 : world) :
  (forall c w,
     reached search sentences polarity hashtag n c0 w0 c w ->
     analyzed_tweets c < n ->
     analyzed_tweets c + 1 <=
     analyzed_tweets
       (fst (analyze_page search sentences polarity hashtag n (n mod 100) c w))) ->
  forall fuel c w,
    reached search sentences polarity hashtag n c0 w0 c w ->
    (Z.to_nat (n - analyzed_tweets c) <= fuel)%nat ->
    exists c' w',
      while_analyzing search sentences polarity fuel hashtag n (n mod 100) c w =
      Some (c', w').
Proof.
  intros Hstep fuel.
  induction fuel as [|fuel IH]; intros c w Hreached Hfuel;
    destruct (Z.lt_ge_cases (analyzed_tweets c) n) as [Hlt | Hge];
    try (rewrite while_analyzing_done by exact Hge; eauto).
  - lia.
  - rewrite while_analyzing_step by exact Hlt.
    apply IH.
    + apply reached_page; assumption.
    + specialize (Hstep c w Hreached Hlt). lia.
Qed.

(** More fuel does not change what the loop returns. *)
Lemma while_analyzing_more_fuel (hashtag : str) (n lw : Z) :
  forall fuel c w r,
    while_analyzing search sentences polarity fuel hashtag n lw c w = Some r ->
    forall more,
      while_analyzing search sentences polarity (fuel + more) hashtag n lw c w = Some r.
Proof.
  induction fuel as [|fuel IH]; intros c w r Hrun more;
    destruct (Z.lt_ge_cases (analyzed_tweets c) n) as [Hlt | Hge];
    try (rewrite while_analyzing_done in * by exact Hge; exact Hrun).
  - rewrite while_analyzing_spent in Hrun by exact Hlt. discriminate.
  - rewrite while_analyzing_step in Hrun by exact Hlt.
    change (S fuel + more)%nat with (S (fuel + more)).
    rewrite while_analyzing_step by exact Hlt.
    apply IH. exact Hrun.
Qed.

Lemma analyze_page_analyzed (hashtag : str) (n lw : Z) (c : counts) (w : world) :
  analyzed_tweets (fst (analyze_page search sentences polarity hashtag n lw c w)) =
  analyzed_tweets c +
  Z.of_nat (List.length (filter (classifies sentences polarity)
    (items (count_per_request n (analyzed_tweets c) lw)
           (search hashtag (List.length (requests w)))))).
Proof. unfold analyze_page. simpl. apply fold_analyze_tweet_analyzed. Qed.

Lemma analyze_page_requests (hashtag : str) (n lw : Z) (c : counts) (w : world) :
  requests (snd (analyze_page search sentences polarity hashtag n lw c w)) =
  requests w ++ [(hashtag, count_per_request n (analyzed_tweets c) lw)].
Proof. reflexivity. Qed.

Lemma analyze_page_word_clouds (hashtag : str) (n lw : Z) (c : counts) (w : world) :
  word_clouds (snd (analyze_page search sentences polarity hashtag n lw c w)) =
  word_clouds w.
Proof. reflexivity. Qed.

Lemma filter_length_existsb (A : Type) (f : A -> bool) (l : list A) :
  existsb f l = true -> (1 <= List.length (filter f l))%nat.
Proof.
  induction l as [|a l IH]; simpl; [discriminate|].
  destruct (f a); simpl; [lia | exact IH].
Qed.

(** ** One hashtag *)

Lemma analyze_hashtag_inv (fuel : nat) (hashtag : str) (n : Z) (w : world)
    (c : counts) (w' : world) :
  analyze_hashtag search sentences polarity fuel hashtag n w = Some (c, w') ->
  exists w1,
    while_analyzing search sentences polarity fuel hashtag n (n mod 100)
      zero_counts w = Some (c, w1) /\
    w' = save_word_cloud w1 hashtag c.
Proof.
  unfold analyze_hashtag. fold zero_counts.
  destruct (while_analyzing search sentences polarity fuel hashtag n (n mod 100)
              zero_counts w) as [[c1 w1]|]; [|discriminate].
  intros H. injection H as <- <-. exists w1. split; reflexivity.
Qed.

(** The analysis of a hashtag ends only with the target reached. *)
Lemma analyze_hashtag_target_reached (fuel : nat) (hashtag : str) (n : Z)
    (w : world) (c : counts) (w' : world) :
  analyze_hashtag search sentences polarity fuel hashtag n w = Some (c, w') ->
  n <= analyzed_tweets c.
Proof.
  intros H. apply analyze_hashtag_inv in H. destruct H as [w1 [H _]].
  apply (while_analyzing_invariant (fun _ _ => True)) in H; [tauto | trivial | trivial].
Qed.

(** A request that yields a tweet which classifies moves
    [analyzed_tweets] on. *)
Lemma analyze_page_progress (hashtag : str) (n : Z) (c : counts) (w : world) :
  existsb (classifies sentences polarity)
    (items (count_per_request n (analyzed_tweets c) (n mod 100))
           (search hashtag (List.length (requests w)))) = true ->
  analyzed_tweets c + 1 <=
  analyzed_tweets
    (fst (analyze_page search sentences polarity hashtag n (n mod 100) c w)).
Proof.
  intros Hprogress. rewrite analyze_page_analyzed.
  apply filter_length_existsb in Hprogress. lia.
Qed.

(** C2 (amended): the paging loop of a hashtag stops only when the number
    of tweets analysed successfully has reached the target: whenever the
    loop is left that number is at least [number_of_tweets], so a page
    shorter than requested does not stop it.  The loop does end, within
    [number_of_tweets] requests, whenever every request it makes yields at
    least one tweet that is analysed successfully, and then any amount of
    fuel that lets it end gives the same counts. *)
Theorem C2_paging_ends_when_target_reached (hashtag : str) (n : Z) (w : world) :
  (forall fuel c w1,
     while_analyzing search sentences polarity fuel hashtag n (n mod 100)
       zero_counts w = Some (c, w1) ->
     n <= analyzed_tweets c) /\
  ((forall c w1,
      reached search sentences polarity hashtag n zero_counts w c w1 ->
      analyzed_tweets c < n ->
      existsb (classifies sentences polarity)
        (items (count_per_request n (analyzed_tweets c) (n mod 100))
               (search hashtag (List.length (requests w1)))) = true) ->
   exists c w1,
     while_analyzing search sentences polarity (Z.to_nat n) hashtag n (n mod 100)
       zero_counts w = Some (c, w1) /\
     n <= analyzed_tweets c /\
     forall more,
       while_analyzing search sentences polarity (Z.to_nat n + more) hashtag n
         (n mod 100) zero_counts w = Some (c, w1)).
Proof.
  assert (Hend : forall fuel c w1,
    while_analyzing search sentences polarity fuel hashtag n (n mod 100)
      zero_counts w = Some (c, w1) ->
    n <= analyzed_tweets c).
  { intros fuel c w1 Hrun.
    apply (while_analyzing_invariant (fun _ _ => True)) in Hrun;
      [tauto | trivial | trivial]. }
  split; [exact Hend|].
  intros Hprogress.
  destruct (while_analyzing_terminates hashtag n zero_counts w
              (fun c w1 Hr Hlt =>
                 analyze_page_progress hashtag n c w1 (Hprogress c w1 Hr Hlt))
              (Z.to_nat n) zero_counts w (reached_start _ _ _ _ _ _ _))
    as [c [w1 Hrun]].
  { simpl. rewrite Z.sub_0_r. lia. }
  exists c, w1. split; [exact Hrun|]. split; [exact (Hend _ _ _ Hrun)|].
  intros more. apply while_analyzing_more_fuel. exact Hrun.
Qed.

(** The last page adds less than a hundred to what was missing. *)
Lemma analyze_hashtag_overshoot (fuel : nat) (hashtag : str) (n : Z)
    (w : world) (c : counts) (w' : world) :
  0 < n ->
  analyze_hashtag search sentences polarity fuel hashtag n w = Some (c, w') ->
  analyzed_tweets c < n + 100.
Proof.
  intros Hn H. apply analyze_hashtag_inv in H. destruct H as [w1 [H _]].
  apply (while_analyzing_invariant (fun c _ => analyzed_tweets c < n + 100)) in H;
    [tauto | | simpl; lia].
  intros c0 w0 _ Hlt. rewrite analyze_page_analyzed.
  pose proof (count_per_request_range n (analyzed_tweets c0) Hlt) as [Hrange _].
  pose proof (items_length_le (count_per_request n (analyzed_tweets c0) (n mod 100))
                (search hashtag (List.length (requests w0))) ltac:(lia)) as Hpage.
  pose proof (filter_length_le (classifies sentences polarity)
                (items (count_per_request n (analyzed_tweets c0) (n mod 100))
                       (search hashtag (List.length (requests w0))))) as Hf.
  lia.
Qed.

(** ** Sentences and tweets *)

Lemma tally_sum_append_text (c : counts) (t : str) :
  tally_sum (append_text c t) = tally_sum c.
Proof. reflexivity. Qed.

(** A tweet whose text is one sentence adds as much to the tally as to
    [analyzed_tweets]. *)
Lemma analyze_tweet_one_sentence (c : counts) (tweet : str) :
  (forall ss, sentences (clean_tweet tweet) = Some ss -> List.length ss = 1%nat) ->
  tally_sum (analyze_tweet sentences polarity c tweet) -
  analyzed_tweets (analyze_tweet sentences polarity c tweet) =
  tally_sum c - analyzed_tweets c.
Proof.
  intros Hone. unfold analyze_tweet.
  destruct (sentences (clean_tweet tweet)) as [ss|] eqn:Hss; [|reflexivity].
  specialize (Hone ss eq_refl).
  destruct ss as [|s [|s' ss]]; try discriminate.
  simpl. destruct (polarity s) as [p|]; simpl; [|reflexivity].
  change (tally_sum (count_polarity (append_text c (clean_tweet tweet)) p) -
          (analyzed_tweets (count_polarity (append_text c (clean_tweet tweet)) p) + 1) =
          tally_sum c - analyzed_tweets c).
  rewrite count_polarity_tally, count_polarity_analyzed, tally_sum_append_text.
  simpl. lia.
Qed.

Lemma fold_analyze_tweet_one_sentence (page : list str) :
  (forall t ss, In t page ->
     sentences (clean_tweet t) = Some ss -> List.length ss = 1%nat) ->
  forall c,
    tally_sum (fold_left (analyze_tweet sentences polarity) page c) -
    analyzed_tweets (fold_left (analyze_tweet sentences polarity) page c) =
    tally_sum c - analyzed_tweets c.
Proof.
  induction page as [|t page IH]; intros Hone c; simpl; [reflexivity|].
  rewrite IH.
  - apply analyze_tweet_one_sentence. intros ss. apply Hone. left. reflexivity.
  - intros t' ss Hin. apply Hone. right. exact Hin.
Qed.

(** ** Full pages of tweets that all classify *)

Section FullPages.

Variable hashtag : str.
Variable n : Z.
Hypothesis full : forall i, (100 <= List.length (search hashtag i))%nat.
Hypothesis all_classify :
  forall i t, In t (search hashtag i) -> classifies sentences polarity t = true.

Lemma analyze_page_full (c : counts) (w : world) :
  analyzed_tweets c < n ->
  analyzed_tweets
    (fst (analyze_page search sentences polarity hashtag n (n mod 100) c w)) =
  analyzed_tweets c + count_per_request n (analyzed_tweets c) (n mod 100).
Proof.
  intros Hlt. rewrite analyze_page_analyzed.
  pose proof (count_per_request_range n (analyzed_tweets c) Hlt) as [Hrange _].
  rewrite forallb_filter_id.
  - rewrite items_length_full; [reflexivity | lia |].
    specialize (full (List.length (requests w))). lia.
  - apply forallb_forall. intros t Ht. apply items_incl in Ht.
    apply (all_classify _ _ Ht).
Qed.

(** With [k] full windows and the last window to go, the loop asks for [k]
    pages of a hundred and then for the last window, and ends on the
    target. *)
Lemma while_full_pages :
  forall k c w,
    n - analyzed_tweets c = 100 * Z.of_nat k + n mod 100 ->
    exists c' w',
      while_analyzing search sentences polarity (S k) hashtag n (n mod 100) c w =
      Some (c', w') /\
      analyzed_tweets c' = n /\
      requests w' =
      requests w ++
      map (pair hashtag)
        (repeat 100 k ++ (if n mod 100 =? 0 then [] else [n mod 100])).
Proof.
  pose proof (Z.mod_pos_bound n 100 ltac:(lia)) as Hmod.
  induction k as [|k IH]; intros c w Hleft.
  - destruct (n mod 100 =? 0) eqn:Hlast.
    + apply Z.eqb_eq in Hlast.
      exists c, w. rewrite while_analyzing_done by lia.
      split; [reflexivity|]. split; [lia|].
      simpl. rewrite app_nil_r. reflexivity.
    + apply Z.eqb_neq in Hlast.
      assert (Hlt : analyzed_tweets c < n) by lia.
      rewrite while_analyzing_step by exact Hlt.
      pose proof (analyze_page_full c w Hlt) as Hpage.
      assert (Hsize : count_per_request n (analyzed_tweets c) (n mod 100) = n mod 100).
      { unfold count_per_request.
        replace (n - analyzed_tweets c =? n mod 100) with true
          by (symmetry; apply Z.eqb_eq; lia).
        reflexivity. }
      rewrite Hsize in Hpage.
      eexists _, _. rewrite while_analyzing_done by lia.
      split; [reflexivity|]. split; [lia|].
      rewrite analyze_page_requests, Hsize. reflexivity.
  - assert (Hlt : analyzed_tweets c < n) by lia.
    rewrite while_analyzing_step by exact Hlt.
    pose proof (analyze_page_full c w Hlt) as Hpage.
    assert (Hsize : count_per_request n (analyzed_tweets c) (n mod 100) = 100).
    { unfold count_per_request.
      replace (n - analyzed_tweets c =? n mod 100) with false
        by (symmetry; apply Z.eqb_neq; lia).
      reflexivity. }
    rewrite Hsize in Hpage.
    destruct (IH (fst (analyze_page search sentences polarity hashtag n (n mod 100) c w))
                 (snd (analyze_page search sentences polarity hashtag n (n mod 100) c w)))
      as [c' [w' [Hrun [Hdone Hlog]]]]; [lia|].
    exists c', w'. split; [exact Hrun|]. split; [exact Hdone|].
    rewrite Hlog, analyze_page_requests, Hsize, <- app_assoc. reflexivity.
Qed.

End FullPages.

(** C1 (amended): when each tweet the searches of a hashtag find is split
    into exactly one sentence, the tally of the hashtag (positive +
    negative + neutral) at the end of its processing equals the number of
    tweets analysed successfully, and that number is at least
    [number_of_tweets]; when moreover every request is answered with at
    least a hundred tweets and every tweet classifies, the paging ends with
    a tally that sums to [number_of_tweets] exactly. *)
Theorem C1_tally_equals_analyzed_tweets (hashtag : str) (n : Z) (w : world) :
  (forall i t ss,
     In t (search hashtag i) ->
     sentences (clean_tweet t) = Some ss -> List.length ss = 1%nat) ->
  (forall fuel c w',
     analyze_hashtag search sentences polarity fuel hashtag n w = Some (c, w') ->
     tally_sum c = analyzed_tweets c /\ n <= analyzed_tweets c) /\
  (0 <= n ->
   (forall i, (100 <= List.length (search hashtag i))%nat) ->
   (forall i t, In t (search hashtag i) -> classifies sentences polarity t = true) ->
   exists c w1,
     while_analyzing search sentences polarity (S (Z.to_nat (n / 100))) hashtag n
       (n mod 100) zero_counts w = Some (c, w1) /\
     tally_sum c = n /\ analyzed_tweets c = n).
Proof.
  intros Hone.
  assert (Hinv : forall fuel c w1,
    while_analyzing search sentences polarity fuel hashtag n (n mod 100)
      zero_counts w = Some (c, w1) ->
    tally_sum c = analyzed_tweets c).
  { intros fuel c w1 Hrun.
    apply (while_analyzing_invariant
             (fun c _ => tally_sum c = analyzed_tweets c)) in Hrun;
      [tauto | | reflexivity].
    intros c0 w0 Hc0 _. unfold analyze_page. simpl.
    pose proof (fold_analyze_tweet_one_sentence
      (items (count_per_request n (analyzed_tweets c0) (n mod 100))
             (search hashtag (List.length (requests w0))))
      (fun t ss Hin => Hone _ t ss (items_incl _ _ _ Hin)) c0).
    lia. }
  split.
  - intros fuel c w' Hrun. split.
    + apply analyze_hashtag_inv in Hrun. destruct Hrun as [w1 [Hrun _]].
      apply (Hinv _ _ _ Hrun).
    + apply (analyze_hashtag_target_reached _ _ _ _ _ _ Hrun).
  - intros Hn Hfull Hall.
    destruct (while_full_pages hashtag n Hfull Hall (Z.to_nat (n / 100))
                zero_counts w) as [c [w1 [Hrun [Hdone _]]]].
    { change (analyzed_tweets zero_counts) with 0.
      pose proof (Z.div_mod n 100 ltac:(lia)).
      pose proof (Z.div_pos n 100 Hn ltac:(lia)). lia. }
    exists c, w1. split; [exact Hrun|]. split; [|exact Hdone].
    rewrite (Hinv _ _ _ Hrun). exact Hdone.
Qed.

(** ** The tally of one tweet *)

(** A polarity equal to zero is neither above nor below it. *)
Lemma zero_polarity (p : float) :
  (p =? 0)%float = true -> (0 <? p)%float = false /\ (p <? 0)%float = false.
Proof.
  rewrite eqb_spec, !ltb_spec.
  change (Prim2SF 0) with (S754_zero false).
  destruct (Prim2SF p) as [s|s| |s m e]; simpl;
    try discriminate; try (destruct s; discriminate).
  intros _. split; reflexivity.
Qed.

Lemma negative_polarity (p : float) :
  (p <? 0)%float = true -> (0 <? p)%float = false.
Proof.
  rewrite !ltb_spec.
  change (Prim2SF 0) with (S754_zero false).
  destruct (Prim2SF p) as [s|s| |s m e]; simpl;
    try discriminate; try reflexivity; destruct s; try discriminate; reflexivity.
Qed.

Lemma analyze_tweet_single_sentence (c : counts) (tweet s : str) (p : float) :
  sentences (clean_tweet tweet) = Some [s] ->
  polarity s = Some p ->
  analyze_tweet sentences polarity c tweet =
  count_analyzed (count_polarity (append_text c (clean_tweet tweet)) p).
Proof.
  intros Hs Hp. unfold analyze_tweet. rewrite Hs. simpl. rewrite Hp. reflexivity.
Qed.

(** A tweet that raises before a sentence is scored, because the splitter
    raises or the scorer raises on the first sentence, leaves the counts as
    they were; only its text has been appended. *)
Lemma analyze_tweet_raising_at_once (c : counts) (tweet : str) :
  sentences (clean_tweet tweet) = None \/
  (exists s ss, sentences (clean_tweet tweet) = Some (s :: ss) /\ polarity s = None) ->
  analyze_tweet sentences polarity c tweet = append_text c (clean_tweet tweet).
Proof.
  unfold analyze_tweet.
  intros [Hs | [s [ss [Hs Hp]]]]; rewrite Hs; [reflexivity|].
  simpl. rewrite Hp. reflexivity.
Qed.

Ltac triple_lia :=
  apply (f_equal2 (@pair (Z * Z) Z)); [apply (f_equal2 (@pair Z Z))|]; lia.

Lemma positive_polarity (p : float) :
  (0 <? p)%float = true -> (p <? 0)%float = false.
Proof.
  intros Hp. destruct (p <? 0)%float eqn:Hn; [|reflexivity].
  rewrite (negative_polarity p Hn) in Hp. discriminate.
Qed.

(** One sentence moves the count of its sign and no other. *)
Lemma count_polarity_sign (c : counts) (p : float) :
  tally (count_polarity c p) =
  (positive_tweets c + count_of (fun q => (0 <? q)%float) [p],
   negative_tweets c + count_of (fun q => (q <? 0)%float) [p],
   neutral_tweets c +
   count_of (fun q => negb (0 <? q)%float && negb (q <? 0)%float) [p]).
Proof.
  unfold count_polarity, count_of, tally. cbn [filter].
  destruct (0 <? p)%float eqn:Hp.
  - rewrite (positive_polarity p Hp). simpl. triple_lia.
  - destruct (p <? 0)%float; simpl; triple_lia.
Qed.

(** The loop over sentences that are all scored runs to its end and
    counts each of them under its sign. *)
Lemma for_sentences_signs (ss : list str) :
  forall ps c,
    map polarity ss = map Some ps ->
    exists c',
      for_sentences polarity ss c = Completed c' /\
      analyzed_tweets c' = analyzed_tweets c /\
      tally c' =
      (positive_tweets c + count_of (fun q => (0 <? q)%float) ps,
       negative_tweets c + count_of (fun q => (q <? 0)%float) ps,
       neutral_tweets c +
       count_of (fun q => negb (0 <? q)%float && negb (q <? 0)%float) ps).
Proof.
  induction ss as [|s ss IH]; intros ps c Hps.
  - destruct ps; [|discriminate]. exists c. split; [reflexivity|].
    split; [reflexivity|].
    unfold tally, count_of. simpl. triple_lia.
  - destruct ps as [|p ps]; [discriminate|].
    simpl in Hps. injection Hps as Hs Hss.
    simpl. rewrite Hs.
    destruct (IH ps (count_polarity c p) Hss) as [c' [Hrun [Han Htally]]].
    exists c'. split; [exact Hrun|].
    split; [rewrite Han; apply count_polarity_analyzed|].
    rewrite Htally.
    pose proof (count_polarity_sign c p) as Hp.
    unfold tally in Hp. injection Hp as Hpos Hneg Hneu.
    rewrite Hpos, Hneg, Hneu.
    unfold count_of. cbn [filter].
    destruct (0 <? p)%float, (p <? 0)%float; simpl List.length; triple_lia.
Qed.

(** C6: every sentence of a classified text is counted by the sign of its
    polarity: for a text whose sentences have the polarities [ps], the
    positive count grows by the number of polarities above zero, the
    negative count by the number below zero and the neutral count by the
    number that are neither.  A polarity equal to zero is neither, with no
    tolerance around it, so a text of one sentence of polarity zero adds
    one to the neutral count and leaves the two others as they were. *)
Theorem C6_tally_by_sign_of_polarity (c : counts) (tweet : str)
    (ss : list str) (ps : list float) :
  sentences (clean_tweet tweet) = Some ss ->
  map polarity ss = map Some ps ->
  tally (analyze_tweet sentences polarity c tweet) =
  (positive_tweets c + count_of (fun p => (0 <? p)%float) ps,
   negative_tweets c + count_of (fun p => (p <? 0)%float) ps,
   neutral_tweets c +
   count_of (fun p => negb (0 <? p)%float && negb (p <? 0)%float) ps) /\
  (forall p, (p =? 0)%float = true ->
     (0 <? p)%float = false /\ (p <? 0)%float = false) /\
  (forall p, ps = [p] -> (p =? 0)%float = true ->
     tally (analyze_tweet sentences polarity c tweet) =
     (positive_tweets c, negative_tweets c, neutral_tweets c + 1)).
Proof.
  intros Hss Hps.
  assert (Htally :
    tally (analyze_tweet sentences polarity c tweet) =
    (positive_tweets c + count_of (fun p => (0 <? p)%float) ps,
     negative_tweets c + count_of (fun p => (p <? 0)%float) ps,
     neutral_tweets c +
     count_of (fun p => negb (0 <? p)%float && negb (p <? 0)%float) ps)).
  { unfold analyze_tweet. rewrite Hss.
    destruct (for_sentences_signs ss ps (append_text c (clean_tweet tweet)) Hps)
      as [c' [Hrun [_ Hc']]].
    rewrite Hrun. exact Hc'. }
  split; [exact Htally|]. split; [exact zero_polarity|].
  intros p -> Hzero. rewrite Htally.
  destruct (zero_polarity p Hzero) as [H1 H2].
  unfold count_of. cbn [filter]. rewrite H1, H2. simpl. triple_lia.
Qed.

(** ** Skipped tweets *)

Lemma count_polarity_same_counts (c c' : counts) (p : float) :
  same_counts c c' -> same_counts (count_polarity c p) (count_polarity c' p).
Proof.
  unfold same_counts, tally, count_polarity. intros [Ht Ha].
  injection Ht as Hp Hn Hu.
  destruct (0 <? p)%float; [|destruct (p <? 0)%float]; simpl; split; congruence.
Qed.

(** The loop over the sentences ends the same way, with the same counts,
    from two states with the same counts. *)
Lemma for_sentences_same_counts (ss : list str) :
  forall c c',
    same_counts c c' ->
    match for_sentences polarity ss c, for_sentences polarity ss c' with
    | Completed d, Completed d' => same_counts d d'
    | Raised d, Raised d' => same_counts d d'
    | _, _ => False
    end.
Proof.
  induction ss as [|s ss IH]; intros c c' H; simpl; [exact H|].
  destruct (polarity s) as [p|]; [|exact H].
  apply IH. apply count_polarity_same_counts. exact H.
Qed.

Lemma analyze_tweet_same_counts (c c' : counts) (tweet : str) :
  same_counts c c' ->
  same_counts (analyze_tweet sentences polarity c tweet)
              (analyze_tweet sentences polarity c' tweet).
Proof.
  intros H. unfold analyze_tweet.
  destruct (sentences (clean_tweet tweet)) as [ss|]; [|exact H].
  pose proof (for_sentences_same_counts ss
                (append_text c (clean_tweet tweet))
                (append_text c' (clean_tweet tweet)) H) as Hfor.
  destruct (for_sentences polarity ss (append_text c (clean_tweet tweet))),
           (for_sentences polarity ss (append_text c' (clean_tweet tweet)));
    try contradiction; [|exact Hfor].
  destruct Hfor as [Ht Ha]. unfold same_counts, tally, count_analyzed in *.
  simpl. split; congruence.
Qed.

(** With at most one sentence in a text, a tweet that does not classify
    leaves the counts as they were. *)
Lemma skipped_tweet_same_counts (c : counts) (tweet : str) :
  (forall s ss, Forall word_or_space s -> sentences s = Some ss ->
     (List.length ss <= 1)%nat) ->
  classifies sentences polarity tweet = false ->
  same_counts (analyze_tweet sentences polarity c tweet) c.
Proof.
  intros Hone Hskip. unfold classifies in Hskip.
  destruct (sentences (clean_tweet tweet)) as [ss|] eqn:Hss.
  - pose proof (Hone _ ss (clean_tweet_word_or_space tweet) Hss) as Hlen.
    destruct ss as [|s [|s' ss]]; [discriminate| |simpl in Hlen; lia].
    simpl in Hskip. rewrite andb_true_r in Hskip. unfold scored in Hskip.
    destruct (polarity s) as [p|] eqn:Hp; [discriminate|].
    rewrite analyze_tweet_raising_at_once.
    + split; reflexivity.
    + right. exists s, []. split; assumption.
  - rewrite analyze_tweet_raising_at_once; [split; reflexivity | left; exact Hss].
Qed.

Lemma fold_skipped_same_counts (page : list str) :
  (forall s ss, Forall word_or_space s -> sentences s = Some ss ->
     (List.length ss <= 1)%nat) ->
  forall c c',
    same_counts c c' ->
    same_counts
      (fold_left (analyze_tweet sentences polarity) page c)
      (fold_left (analyze_tweet sentences polarity)
         (filter (classifies sentences polarity) page) c').
Proof.
  intros Hone. induction page as [|t page IH]; intros c c' H; simpl; [exact H|].
  destruct (classifies sentences polarity t) eqn:Ht; simpl.
  - apply IH. apply analyze_tweet_same_counts. exact H.
  - apply IH.
    destruct (skipped_tweet_same_counts c t Hone Ht) as [H1 H2].
    destruct H as [H3 H4]. split; congruence.
Qed.

(** C3: a tweet whose classification raises, in the splitter or in the
    scorer, contributes nothing to the tally and does not count as
    analysed, and the loop goes on with the next tweet: a page leaves the
    counts that its tweets which classify leave by themselves.  The
    splitter is given texts the normalizer has cleaned, without
    punctuation or line break, in which it finds at most one sentence. *)
Theorem C3_skipped_tweets_count_nothing :
  (forall s ss, Forall word_or_space s -> sentences s = Some ss ->
     (List.length ss <= 1)%nat) ->
  (forall c tweet,
     classifies sentences polarity tweet = false ->
     tally (analyze_tweet sentences polarity c tweet) = tally c /\
     analyzed_tweets (analyze_tweet sentences polarity c tweet) =
     analyzed_tweets c) /\
  (forall page c,
     tally (fold_left (analyze_tweet sentences polarity) page c) =
     tally (fold_left (analyze_tweet sentences polarity)
              (filter (classifies sentences polarity) page) c) /\
     analyzed_tweets (fold_left (analyze_tweet sentences polarity) page c) =
     analyzed_tweets
       (fold_left (analyze_tweet sentences polarity)
          (filter (classifies sentences polarity) page) c)).
Proof.
  intros Hone. split.
  - intros c tweet Hskip. exact (skipped_tweet_same_counts c tweet Hone Hskip).
  - intros page c.
    exact (fold_skipped_same_counts page Hone c c (conj eq_refl eq_refl)).
Qed.

(** ** The whole run *)

(** C7: when [setup_twitter] gives no API handle, the run returns the
    set-up failure message at once, whatever the hashtags: no search has
    been issued and no word cloud saved, so no hashtag was attempted. *)
Theorem C7_setup_failure_stops_the_run (fuel : nat) (environ : str -> option str)
    (hashtags : list str) (n : Z) (w : world) :
  setup_twitter environ = None ->
  get_tweets_and_sentiment search sentences polarity fuel environ hashtags n w =
  Some (Message (txt "Twitter setup failed! Please check your credentials!"), w).
Proof.
  intros Hsetup. unfold get_tweets_and_sentiment. rewrite Hsetup. reflexivity.
Qed.

Lemma analyzed_in_order_length (fuel : nat) (n : Z) (hashtags : list str)
    (w : world) (cs : list counts) (w' : world) :
  analyzed_in_order search sentences polarity fuel n hashtags w cs w' ->
  List.length cs = List.length hashtags.
Proof.
  induction 1; simpl; [reflexivity | f_equal; assumption].
Qed.

(** The loop over the hashtags appends, for each hashtag in turn, its
    counts to the three lists. *)
Lemma for_hashtags_in_order (fuel : nat) (n : Z) (hashtags : list str) :
  forall r0 w r w',
    for_hashtags search sentences polarity fuel hashtags n r0 w = Some (r, w') ->
    exists cs,
      analyzed_in_order search sentences polarity fuel n hashtags w cs w' /\
      positive r = positive r0 ++ map positive_tweets cs /\
      negative r = negative r0 ++ map negative_tweets cs /\
      neutral r = neutral r0 ++ map neutral_tweets cs.
Proof.
  induction hashtags as [|hashtag hashtags IH]; intros r0 w r w' Hrun; simpl in Hrun.
  - injection Hrun as <- <-. exists []. simpl. rewrite !app_nil_r.
    repeat split. constructor.
  - destruct (analyze_hashtag search sentences polarity fuel hashtag n w)
      as [[c w1]|] eqn:Hc; [|discriminate].
    apply IH in Hrun. destruct Hrun as [cs [Horder [Hpos [Hneg Hneu]]]].
    exists (c :: cs). simpl in *.
    rewrite <- !app_assoc in *. simpl in *.
    repeat split; try assumption.
    econstructor; eassumption.
Qed.

(** A run that returns a dictionary analysed the hashtags in order and
    returns their counts in that order. *)
Lemma results_in_order (fuel : nat) (environ : str -> option str)
    (hashtags : list str) (n : Z) (w : world) (r : results) (w' : world) :
  get_tweets_and_sentiment search sentences polarity fuel environ hashtags n w =
  Some (Results r, w') ->
  exists cs,
    analyzed_in_order search sentences polarity fuel n hashtags w cs w' /\
    positive r = map positive_tweets cs /\
    negative r = map negative_tweets cs /\
    neutral r = map neutral_tweets cs /\
    List.length (positive r) = List.length hashtags /\
    List.length (negative r) = List.length hashtags /\
    List.length (neutral r) = List.length hashtags.
Proof.
  unfold get_tweets_and_sentiment.
  destruct (setup_twitter environ); [|discriminate].
  destruct (for_hashtags search sentences polarity fuel hashtags n
              {| positive := []; negative := []; neutral := [] |} w)
    as [[r1 w1]|] eqn:Hrun; [|discriminate].
  intros H. injection H as <- <-.
  apply for_hashtags_in_order in Hrun.
  destruct Hrun as [cs [Horder [Hpos [Hneg Hneu]]]]. simpl in *.
  exists cs.
  pose proof (analyzed_in_order_length _ _ _ _ _ _ Horder) as Hlen.
  rewrite Hpos, Hneg, Hneu, !length_map.
  repeat split; assumption.
Qed.

(** C9: the dictionary a run returns holds, under each label, one count
    per hashtag, in the order of the hashtags: the i-th entry of each list
    is the count the i-th hashtag ended with, the hashtags being analysed
    one after the other. *)
Theorem C9_results_follow_the_hashtags (fuel : nat) (environ : str -> option str)
    (hashtags : list str) (n : Z) (w : world) (r : results) (w' : world) :
  get_tweets_and_sentiment search sentences polarity fuel environ hashtags n w =
  Some (Results r, w') ->
  exists cs,
    analyzed_in_order search sentences polarity fuel n hashtags w cs w' /\
    positive r = map positive_tweets cs /\
    negative r = map negative_tweets cs /\
    neutral r = map neutral_tweets cs /\
    List.length (positive r) = List.length hashtags /\
    List.length (negative r) = List.length hashtags /\
    List.length (neutral r) = List.length hashtags.
Proof. apply results_in_order. Qed.

End AggregatorFacts.

(** * The claims on concrete runs *)

Import Examples.

Lemma C1_witness :
  exists c w1,
    while_analyzing plenty whole_text lexicon 3 (txt "#tag") 250 (250 mod 100)
      zero_counts start = Some (c, w1) /\
    tally_sum c = 250 /\ analyzed_tweets c = 250.
Proof.
  apply (proj2 (C1_tally_equals_analyzed_tweets plenty whole_text lexicon
                  (txt "#tag") 250 start
                  ltac:(intros i t ss _ H; injection H as <-; reflexivity))).
  - lia.
  - intros i. unfold plenty. rewrite repeat_length. lia.
  - intros i t Hin. apply repeat_spec in Hin. subst t. reflexivity.
Defined.

(** C1 is not true as stated: a tweet that is nothing but a mention has an
    empty text without a sentence, so it counts as analysed and adds
    nothing to the tally.  With a target of 5 and a search that finds four
    tweets, the first of them such a mention, the second request is for a
    hundred: 8 tweets are analysed and the tally sums to 6. *)
Lemma C1_counterexample :
  exists c w1,
    while_analyzing four_tweets one_or_none lexicon 2 (txt "#tag") 5 (5 mod 100)
      zero_counts start = Some (c, w1) /\
    tally c = (2, 2, 2) /\ analyzed_tweets c = 8 /\
    5 < tally_sum c /\ tally_sum c <> analyzed_tweets c /\ 5 < analyzed_tweets c.
Proof.
  eexists. eexists. split; [vm_compute; reflexivity|].
  vm_compute. repeat split; discriminate.
Qed.

Lemma C2_witness :
  exists c w1,
    while_analyzing hundred_with_crash whole_text lexicon (Z.to_nat 150)
      (txt "#tag") 150 (150 mod 100) zero_counts start = Some (c, w1) /\
    150 <= analyzed_tweets c /\
    forall more,
      while_analyzing hundred_with_crash whole_text lexicon (Z.to_nat 150 + more)
        (txt "#tag") 150 (150 mod 100) zero_counts start = Some (c, w1).
Proof.
  apply (proj2 (C2_paging_ends_when_target_reached hundred_with_crash whole_text
                  lexicon (txt "#tag") 150 start)).
  intros c w1 _ _. unfold count_per_request.
  destruct (150 - analyzed_tweets c =? 150 mod 100); reflexivity.
Defined.

(** Once the two hundred tweets are used up, every request comes back
    empty and the loop goes on asking. *)
Lemma two_hundred_stuck (lw : Z) :
  forall fuel c w,
    analyzed_tweets c < 250 ->
    (2 <= List.length (requests w))%nat ->
    while_analyzing two_hundred whole_text lexicon fuel (txt "#tag") 250 lw c w = None.
Proof.
  induction fuel as [|fuel IH]; intros c w Hlt Hlog.
  - apply while_analyzing_spent. exact Hlt.
  - rewrite while_analyzing_step by exact Hlt.
    assert (Hfound : two_hundred (txt "#tag") (List.length (requests w)) = []).
    { unfold two_hundred.
      replace (List.length (requests w) <? 2)%nat with false
        by (symmetry; apply Nat.ltb_ge; exact Hlog).
      reflexivity. }
    apply IH.
    + rewrite analyze_page_analyzed, Hfound. unfold items.
      destruct (0 <? count_per_request 250 (analyzed_tweets c) lw);
        rewrite ?firstn_nil; simpl; lia.
    + rewrite analyze_page_requests, length_app. simpl. lia.
Qed.

(** C2 is not true as stated: with a target of 250 and a search that has
    200 tweets, the third request comes back empty, and so does every
    request after it; the loop does not stop, whatever the fuel. *)
Lemma C2_counterexample :
  ~ exists fuel c w1,
      while_analyzing two_hundred whole_text lexicon fuel (txt "#tag") 250
        (250 mod 100) zero_counts start = Some (c, w1).
Proof.
  intros [fuel [c [w1 H]]].
  destruct fuel as [|[|fuel]]; try (vm_compute in H; discriminate).
  rewrite while_analyzing_step in H by reflexivity.
  rewrite while_analyzing_step in H by reflexivity.
  rewrite two_hundred_stuck in H; [discriminate | reflexivity | vm_compute; lia].
Qed.

(** C8 does not hold of the program: with a target of 150 and one tweet of
    the first page skipped, 51 tweets are missing after it, which is not
    the last window of 50, so the second and last request is for a
    hundred and 198 tweets are analysed. *)
Theorem C8_last_window_missed :
  exists c w1,
    while_analyzing hundred_with_crash whole_text lexicon 2 (txt "#tag") 150
      (150 mod 100) zero_counts start = Some (c, w1) /\
    requests w1 = [(txt "#tag", 100); (txt "#tag", 100)] /\
    150 mod 100 = 50 /\
    analyzed_tweets c = 198.
Proof.
  eexists. eexists. split; [vm_compute; reflexivity|].
  repeat split.
Qed.

Lemma C3_witness :
  tally (fold_left (analyze_tweet one_or_none lexicon)
           [txt "good"; txt "crash"; txt "bad"; txt "crash"; txt "nice day";
            txt "crash"] zero_counts) =
  tally (fold_left (analyze_tweet one_or_none lexicon)
           [txt "good"; txt "bad"; txt "nice day"] zero_counts) /\
  analyzed_tweets
    (fold_left (analyze_tweet one_or_none lexicon)
       [txt "good"; txt "crash"; txt "bad"; txt "crash"; txt "nice day";
        txt "crash"] zero_counts) =
  analyzed_tweets
    (fold_left (analyze_tweet one_or_none lexicon)
       [txt "good"; txt "bad"; txt "nice day"] zero_counts).
Proof.
  apply (proj2 (C3_skipped_tweets_count_nothing one_or_none lexicon
                  ltac:(intros s ss _ H; unfold one_or_none in H;
                        destruct (existsb is_word s); injection H as <-;
                        simpl; lia))
               [txt "good"; txt "crash"; txt "bad"; txt "crash"; txt "nice day";
                txt "crash"] zero_counts).
Defined.

Lemma C6_witness :
  tally (analyze_tweet each_word lexicon zero_counts (txt "good bad")) = (1, 1, 0) /\
  tally (analyze_tweet whole_text lexicon zero_counts (txt "ok")) = (0, 0, 1).
Proof.
  split.
  - apply (proj1 (C6_tally_by_sign_of_polarity each_word lexicon zero_counts
                    (txt "good bad") [txt "good"; txt "bad"]
                    [0.5%float; (-0.5)%float] eq_refl eq_refl)).
  - apply (proj2 (proj2 (C6_tally_by_sign_of_polarity whole_text lexicon
                           zero_counts (txt "ok") [txt "ok"] [0%float]
                           eq_refl eq_refl)) 0%float eq_refl eq_refl).
Defined.

Lemma C7_witness :
  get_tweets_and_sentiment plenty whole_text lexicon 0 no_environ
    [txt "#cats"; txt "#dogs"] 250 start =
  Some (Message (txt "Twitter setup failed! Please check your credentials!"), start).
Proof.
  apply (C7_setup_failure_stops_the_run plenty whole_text lexicon 0 no_environ
           [txt "#cats"; txt "#dogs"] 250 start).
  reflexivity.
Defined.

Lemma C9_witness :
  exists r w',
    get_tweets_and_sentiment by_hashtag each_word lexicon 2 full_environ
      [txt "#cats"; txt "#dogs"] 2 start = Some (Results r, w') /\
    positive r = [2; 0] /\ negative r = [0; 2] /\ neutral r = [1; 0] /\
    List.length (positive r) = List.length [txt "#cats"; txt "#dogs"].
Proof.
  destruct (get_tweets_and_sentiment by_hashtag each_word lexicon 2 full_environ
              [txt "#cats"; txt "#dogs"] 2 start)
    as [[[m|r] w']|] eqn:E; try (vm_compute in E; discriminate).
  exists r, w'. split; [reflexivity|].
  destruct (C9_results_follow_the_hashtags by_hashtag each_word lexicon 2
              full_environ [txt "#cats"; txt "#dogs"] 2 start r w' E)
    as [cs [_ [_ [_ [_ [Hlen _]]]]]].
  vm_compute in E. injection E as <- <-.
  split; [reflexivity|]. split; [reflexivity|]. split; [reflexivity|].
  exact Hlen.
Defined.

(** * More about the normalizer *)

(** The output of the second substitution has no character other than
    word characters and spaces. *)
Lemma collapse_word_or_space (s : str) :
  Forall word_or_space (sub (Run non_word) (txt " ") s).
Proof.
  apply sub_from_Forall.
  - constructor; [right; reflexivity | constructor].
  - exact non_word_run_unmatched.
Qed.

(** X1: the substitution of line 26 never finds a hash sign: the one of line
    25 has already turned each of them into a space, so [clean_tweet] is
    the three other substitutions. *)
Theorem clean_tweet_hash_pass_idle (tweet : str) :
  clean_tweet tweet =
  sub (word (txt "RT")) []
    (sub (Run non_word) (txt " ") (sub mention_or_link [] tweet)).
Proof.
  unfold clean_tweet. rewrite hash_fixed; [reflexivity|].
  apply collapse_word_or_space.
Qed.

(** A substitution whose replacement has at most one character does not
    lengthen the text. *)
Lemma sub_from_length (p : pattern) (repl : str) :
  (List.length repl <= 1)%nat ->
  forall s skip,
    (List.length (sub_from p repl skip s) <= List.length s)%nat.
Proof.
  intros Hrepl. induction s as [|c s IH]; intros skip; simpl; [lia|].
  destruct skip as [|k].
  - destruct (match_at p (c :: s)) as [[|n]|]; simpl.
    + specialize (IH O). lia.
    + rewrite length_app. specialize (IH n). lia.
    + specialize (IH O). lia.
  - specialize (IH k). lia.
Qed.

(** X2: the normalizer never lengthens a text. *)
Theorem clean_tweet_length (tweet : str) :
  (List.length (clean_tweet tweet) <= List.length tweet)%nat.
Proof.
  unfold clean_tweet, sub.
  pose proof (sub_from_length mention_or_link [] ltac:(simpl; lia) tweet O) as H1.
  pose proof (sub_from_length (Run non_word) (txt " ") ltac:(simpl; lia)
                (sub_from mention_or_link [] O tweet) O) as H2.
  pose proof (sub_from_length (Chr "#") [] ltac:(simpl; lia)
                (sub_from (Run non_word) (txt " ") O
                   (sub_from mention_or_link [] O tweet)) O) as H3.
  pose proof (sub_from_length (word (txt "RT")) [] ltac:(simpl; lia)
                (sub_from (Chr "#") []  O
                   (sub_from (Run non_word) (txt " ") O
                      (sub_from mention_or_link [] O tweet))) O) as H4.
  lia.
Qed.

(** Skipping the characters of a match is dropping them. *)
Lemma sub_from_skip (p : pattern) (repl : str) :
  forall k s, sub_from p repl k s = sub_from p repl O (skipn k s).
Proof.
  induction k as [|k IH]; intros s; [reflexivity|].
  destruct s as [|c s]; [reflexivity|].
  simpl skipn. rewrite <- IH. reflexivity.
Qed.

Lemma run_length_app (cls : ascii -> bool) (a b : str) :
  Forall (fun c => cls c = true) a ->
  run_length cls (a ++ b) = (List.length a + run_length cls b)%nat.
Proof.
  induction 1 as [|c a Hc _ IH]; simpl; [reflexivity|].
  rewrite Hc, IH. reflexivity.
Qed.

Lemma skipn_length_app (a b : str) : skipn (List.length a) (a ++ b) = b.
Proof. induction a as [|c a IH]; simpl; [reflexivity | exact IH]. Qed.

(** X4: a mention at the start of a tweet, closed by the end of the text or by
    a character that is not a word character, is removed whole: the
    normalizer gives what it gives for the rest of the tweet. *)
Theorem clean_tweet_leading_mention (name rest : str) :
  name <> [] ->
  Forall (fun c => is_word c = true) name ->
  run_length is_word rest = O ->
  clean_tweet ("@"%char :: name ++ rest) = clean_tweet rest.
Proof.
  intros Hne Hname Hrest.
  assert (H1 : sub mention_or_link [] ("@"%char :: name ++ rest) =
               sub mention_or_link [] rest).
  { unfold sub. cbn [sub_from].
    unfold mention_or_link at 1. rewrite match_at_Or, match_at_Cat.
    cbn [match_at]. rewrite Ascii.eqb_refl. cbn [skipn].
    rewrite (run_length_app is_word name rest Hname), Hrest, Nat.add_0_r.
    destruct name as [|c name]; [contradiction|].
    cbn [List.length Nat.add app].
    rewrite sub_from_skip.
    change (c :: name ++ rest) with ((c :: name) ++ rest).
    change (S (List.length name)) with (List.length (c :: name)).
    rewrite skipn_length_app. reflexivity. }
  unfold clean_tweet. rewrite H1. reflexivity.
Qed.

Lemma clean_tweet_leading_mention_witness :
  clean_tweet (txt "@bob: great day") = clean_tweet (txt ": great day").
Proof.
  apply (clean_tweet_leading_mention (txt "bob") (txt ": great day")).
  - discriminate.
  - repeat constructor.
  - reflexivity.
Defined.

(** X5: of a link at the start of a tweet only [https://] and the word
    characters that follow are removed: the normalizer gives what it gives
    for the text from the first character after them, which is the rest of
    the link when the link goes on with a dot or a slash. *)
Theorem clean_tweet_leading_link (name rest : str) :
  name <> [] ->
  Forall (fun c => is_word c = true) name ->
  run_length is_word rest = O ->
  clean_tweet (txt "https://" ++ name ++ rest) = clean_tweet rest.
Proof.
  intros Hne Hname Hrest.
  assert (H1 : sub mention_or_link [] (txt "https://" ++ name ++ rest) =
               sub mention_or_link [] rest).
  { unfold sub.
    change (txt "https://" ++ name ++ rest)
      with ("h"%char :: txt "ttps://" ++ name ++ rest).
    cbn [sub_from].
    unfold mention_or_link at 1. rewrite !match_at_Or, !match_at_Cat.
    change (match_at (Chr "@") ("h"%char :: txt "ttps://" ++ name ++ rest))
      with (@None nat).
    rewrite (match_at_word (txt "https://")).
    change (starts_with (txt "https://") ("h"%char :: txt "ttps://" ++ name ++ rest))
      with true.
    cbn iota.
    change (skipn (List.length (txt "https://"))
              ("h"%char :: txt "ttps://" ++ name ++ rest))
      with (name ++ rest).
    cbn [match_at].
    rewrite (run_length_app is_word name rest Hname), Hrest, Nat.add_0_r.
    destruct name as [|c name]; [contradiction|].
    cbn [List.length Nat.add txt list_ascii_of_string].
    rewrite sub_from_skip.
    cbn [skipn app]. rewrite skipn_length_app. reflexivity. }
  unfold clean_tweet. rewrite H1. reflexivity.
Qed.

Lemma clean_tweet_leading_link_witness :
  clean_tweet (txt "https://t.co/abc") = clean_tweet (txt ".co/abc").
Proof.
  apply (clean_tweet_leading_link (txt "t") (txt ".co/abc")).
  - discriminate.
  - repeat constructor.
  - reflexivity.
Defined.

(** ** The texts the normalizer leaves unchanged, exactly *)

Lemma occurs_impl (f g : str -> bool) :
  (forall s, f s = true -> g s = true) ->
  forall s, occurs f s = true -> occurs g s = true.
Proof.
  intros Hfg. induction s as [|c s IH]; simpl; intros H.
  - apply orb_true_iff in H. destruct H as [H | H]; [|discriminate].
    rewrite (Hfg _ H). reflexivity.
  - apply orb_true_iff in H. apply orb_true_iff.
    destruct H as [H | H]; [left; apply Hfg; exact H | right; apply IH; exact H].
Qed.

Lemma run_length_le (cls : ascii -> bool) (s : str) :
  (run_length cls s <= List.length s)%nat.
Proof.
  induction s as [|c s IH]; simpl; [lia|].
  destruct (cls c); simpl; lia.
Qed.

(** A match takes no more characters than the text has. *)
Lemma match_at_le (p : pattern) :
  forall s n, match_at p s = Some n -> (n <= List.length s)%nat.
Proof.
  induction p as [|c| |cls|p IHp q IHq|p IHp q IHq]; intros s n H; simpl in H.
  - injection H as <-. lia.
  - destruct s as [|d s]; [discriminate|].
    destruct (Ascii.eqb c d); [|discriminate]. injection H as <-. simpl. lia.
  - destruct s as [|d s]; [discriminate|].
    destruct (Ascii.eqb d newline); [discriminate|]. injection H as <-. simpl. lia.
  - pose proof (run_length_le cls s).
    destruct (run_length cls s); [discriminate|]. injection H as <-. lia.
  - destruct (match_at p s) as [k|] eqn:Hp; [|discriminate].
    destruct (match_at q (skipn k s)) as [m|] eqn:Hq; [|discriminate].
    injection H as <-.
    apply IHp in Hp. apply IHq in Hq. rewrite length_skipn in Hq. lia.
  - destruct (match_at p s) as [k|] eqn:Hp.
    + injection H as <-. apply IHp. exact Hp.
    + apply IHq. exact H.
Qed.

(** A deletion that finds a match shortens the text. *)
Lemma sub_delete_shorter (p : pattern) :
  forall s,
    occurs (matches p) s = true ->
    (List.length (sub p [] s) < List.length s)%nat.
Proof.
  unfold sub. induction s as [|c s IH]; intros H.
  - simpl in H. unfold matches in H.
    destruct (match_at p []) as [[|n]|] eqn:E; try discriminate.
    apply match_at_le in E. simpl in E. lia.
  - simpl in H. cbn [sub_from]. unfold matches at 1 in H.
    destruct (match_at p (c :: s)) as [[|n]|]; simpl in *.
    + specialize (IH H). lia.
    + pose proof (sub_from_length p [] ltac:(simpl; lia) s n). lia.
    + specialize (IH H). lia.
Qed.

Lemma word_matches (c : ascii) (w s : str) :
  matches (word (c :: w)) s = starts_with (c :: w) s.
Proof.
  unfold matches. rewrite match_at_word.
  destruct (starts_with (c :: w) s); reflexivity.
Qed.

(** Where [www_link_here] holds, the pattern of line 24 matches. *)
Lemma www_link_matches (s : str) :
  www_link_here s = true -> matches mention_or_link s = true.
Proof.
  destruct s as [|c1 [|c2 [|c3 [|c [|d s]]]]]; try discriminate.
  simpl. intros H.
  repeat (apply andb_true_iff in H; destruct H as [H ?]).
  repeat match goal with
         | E : Ascii.eqb _ _ = true |- _ => apply Ascii.eqb_eq in E; subst
         end.
  unfold matches, mention_or_link.
  rewrite !match_at_Or, !match_at_Cat, !match_at_word.
  cbn [match_at starts_with txt list_ascii_of_string List.length skipn run_length].
  change (("@" =? "w")%char) with false.
  change (("h" =? "w")%char) with false.
  rewrite !Ascii.eqb_refl. cbn [andb skipn].
  match goal with
  | E : negb (Ascii.eqb c newline) = true |- _ =>
      apply negb_true_iff in E; rewrite E
  end.
  cbn [skipn run_length].
  match goal with E : is_word d = true |- _ => rewrite E end.
  reflexivity.
Qed.

(** On a text of word characters and spaces, the second substitution keeps
    the length only when no two spaces are adjacent. *)
Lemma collapse_same_length (s : str) :
  Forall word_or_space s ->
  List.length (sub (Run non_word) (txt " ") s) = List.length s ->
  contains (txt "  ") s = false.
Proof.
  unfold sub, contains. change (txt " ") with [" "%char].
  induction s as [|c s IH]; intros Hs Hlen; [reflexivity|].
  inversion Hs as [|c' s' Hc Hs']; subst.
  cbn [sub_from match_at run_length] in Hlen.
  cbn [occurs].
  destruct Hc as [Hc | ->].
  - assert (Hn : non_word c = false) by (unfold non_word; rewrite Hc; reflexivity).
    rewrite Hn in Hlen. simpl in Hlen.
    rewrite (IH Hs' ltac:(lia)).
    assert (Hsp : Ascii.eqb " " c = false).
    { apply Ascii.eqb_neq. intros <-. discriminate. }
    simpl. rewrite Hsp. reflexivity.
  - replace (non_word " ") with true in Hlen by reflexivity.
    rewrite sub_from_skip in Hlen. simpl in Hlen.
    pose proof (sub_from_length (Run non_word) [" "%char] ltac:(simpl; lia)
                  (skipn (run_length non_word s) s) O) as Hle.
    rewrite length_skipn in Hle.
    pose proof (run_length_le non_word s) as Hrun.
    assert (Hzero : run_length non_word s = O) by lia.
    rewrite Hzero in Hlen. simpl in Hlen.
    rewrite (IH Hs' ltac:(lia)).
    destruct s as [|d s]; [reflexivity|].
    simpl in Hzero. simpl.
    destruct (non_word d) eqn:Hd; [discriminate|].
    assert (Hsp : Ascii.eqb " " d = false).
    { apply Ascii.eqb_neq. intros <-. discriminate. }
    rewrite Hsp. reflexivity.
Qed.

(** X3: the normalizer returns a text unchanged exactly when the text is made
    of word characters and single spaces and holds neither [RT] nor [www]
    followed by a character and a word character. *)
Theorem clean_tweet_fixed_iff (s : str) :
  clean_tweet s = s <->
  Forall word_or_space s /\
  contains (txt "RT") s = false /\
  contains (txt "  ") s = false /\
  occurs www_link_here s = false.
Proof.
  split.
  2:{ intros [Hs [Hrt [Hsp Hwww]]]. apply clean_tweet_fixed; assumption. }
  intros Hfix.
  assert (Hs : Forall word_or_space s).
  { rewrite <- Hfix. apply clean_tweet_word_or_space. }
  pose proof Hfix as Hlen. apply (f_equal (@List.length ascii)) in Hlen.
  unfold clean_tweet, sub in Hlen.
  pose proof (sub_from_length mention_or_link [] ltac:(simpl; lia) s O) as H1.
  pose proof (sub_from_length (Run non_word) (txt " ") ltac:(simpl; lia)
                (sub_from mention_or_link [] O s) O) as H2.
  pose proof (sub_from_length (Chr "#") [] ltac:(simpl; lia)
                (sub_from (Run non_word) (txt " ") O
                   (sub_from mention_or_link [] O s)) O) as H3.
  pose proof (sub_from_length (word (txt "RT")) [] ltac:(simpl; lia)
                (sub_from (Chr "#") []  O
                   (sub_from (Run non_word) (txt " ") O
                      (sub_from mention_or_link [] O s))) O) as H4.
  assert (Hm : occurs (matches mention_or_link) s = false).
  { destruct (occurs (matches mention_or_link) s) eqn:E; [|reflexivity].
    apply sub_delete_shorter in E. unfold sub in E. lia. }
  assert (Hwww : occurs www_link_here s = false).
  { destruct (occurs www_link_here s) eqn:E; [|reflexivity].
    apply (occurs_impl _ _ www_link_matches) in E. congruence. }
  pose proof (sub_unmatched mention_or_link [] s Hm) as E1.
  unfold sub in E1. rewrite E1 in *.
  assert (Hsp : contains (txt "  ") s = false).
  { apply collapse_same_length; [exact Hs | unfold sub; lia]. }
  pose proof (collapse_fixed s Hs Hsp) as E2.
  unfold sub in E2. rewrite E2 in *.
  pose proof (hash_fixed s Hs) as E3.
  unfold sub in E3. rewrite E3 in *.
  assert (Hrt : contains (txt "RT") s = false).
  { unfold contains.
    destruct (occurs (starts_with (txt "RT")) s) eqn:E; [|reflexivity].
    apply (occurs_impl _ (matches (word (txt "RT")))) in E.
    - apply sub_delete_shorter in E. unfold sub in E. lia.
    - intros s' Hs'. change (txt "RT") with ("R"%char :: txt "T").
      rewrite word_matches. exact Hs'. }
  repeat split; assumption.
Qed.

(** * More about the aggregator *)

Section PageFacts.

Variable sentences : str -> option (list str).
Variable polarity : str -> option float.

Lemma for_sentences_text (ss : list str) :
  forall c, text (counts_of (for_sentences polarity ss c)) = text c.
Proof.
  induction ss as [|s ss IH]; intros c; simpl; [reflexivity|].
  destruct (polarity s) as [p|]; [|reflexivity].
  rewrite IH. apply count_polarity_text.
Qed.

Lemma analyze_tweet_text (c : counts) (tweet : str) :
  text (analyze_tweet sentences polarity c tweet) = text c ++ [clean_tweet tweet].
Proof.
  unfold analyze_tweet.
  destruct (sentences (clean_tweet tweet)) as [ss|]; [|reflexivity].
  pose proof (for_sentences_text ss (append_text c (clean_tweet tweet))) as H.
  destruct (for_sentences polarity ss (append_text c (clean_tweet tweet)));
    simpl in *; exact H.
Qed.

Lemma fold_analyze_tweet_text (page : list str) :
  forall c,
    text (fold_left (analyze_tweet sentences polarity) page c) =
    text c ++ map clean_tweet page.
Proof.
  induction page as [|t page IH]; intros c; simpl.
  - rewrite app_nil_r. reflexivity.
  - rewrite IH, analyze_tweet_text, <- app_assoc. reflexivity.
Qed.

(** X7: the loop over the tweets of a page appends the cleaned text of every
    tweet to [text], in order, whether the tweet classifies or is
    skipped. *)
Theorem page_texts (page : list str) (c : counts) :
  text (fold_left (analyze_tweet sentences polarity) page c) =
  text c ++ map clean_tweet page.
Proof. apply fold_analyze_tweet_text. Qed.

(** X8: the loop over the tweets of a page adds to [analyzed_tweets] the number
    of its tweets that classify, which is at most the length of the page. *)
Theorem page_analyzed (page : list str) (c : counts) :
  analyzed_tweets (fold_left (analyze_tweet sentences polarity) page c) =
  analyzed_tweets c +
  Z.of_nat (List.length (filter (classifies sentences polarity) page)) /\
  analyzed_tweets (fold_left (analyze_tweet sentences polarity) page c) <=
  analyzed_tweets c + Z.of_nat (List.length page).
Proof.
  pose proof (fold_analyze_tweet_analyzed sentences polarity page c) as H.
  pose proof (filter_length_le (classifies sentences polarity) page) as Hle.
  split; [exact H | lia].
Qed.

Lemma for_sentences_tally (ss : list str) :
  forall c,
    tally_sum (counts_of (for_sentences polarity ss c)) =
    tally_sum c + Z.of_nat (counted_sentences polarity ss).
Proof.
  induction ss as [|s ss IH]; intros c; simpl; [lia|].
  destruct (polarity s) as [p|]; simpl; [|lia].
  rewrite IH, count_polarity_tally. lia.
Qed.

Lemma analyze_tweet_tally (c : counts) (tweet : str) :
  tally_sum (analyze_tweet sentences polarity c tweet) =
  tally_sum c + Z.of_nat (counted sentences polarity tweet).
Proof.
  unfold analyze_tweet, counted.
  destruct (sentences (clean_tweet tweet)) as [ss|].
  - pose proof (for_sentences_tally ss (append_text c (clean_tweet tweet))) as H.
    rewrite tally_sum_append_text in H.
    destruct (for_sentences polarity ss (append_text c (clean_tweet tweet)));
      simpl counts_of in H; [|exact H].
    rewrite <- H. reflexivity.
  - rewrite tally_sum_append_text. simpl. lia.
Qed.

Lemma counted_sentences_all (ss : list str) :
  forallb (scored polarity) ss = true ->
  counted_sentences polarity ss = List.length ss.
Proof.
  induction ss as [|s ss IH]; simpl; [reflexivity|].
  unfold scored at 1. destruct (polarity s); [|discriminate].
  intros H. rewrite (IH H). reflexivity.
Qed.

(** X9: the loop over the tweets of a page adds to the tally, for each tweet,
    the number of its sentences scored before the scorer first raises: all
    the sentences of a tweet that classifies, and none of a tweet whose
    text the splitter cannot split. *)
Theorem page_tally (page : list str) (c : counts) :
  tally_sum (fold_left (analyze_tweet sentences polarity) page c) =
  tally_sum c + Z.of_nat (list_sum (map (counted sentences polarity) page)) /\
  (forall tweet ss,
     sentences (clean_tweet tweet) = Some ss ->
     classifies sentences polarity tweet = true ->
     counted sentences polarity tweet = List.length ss) /\
  (forall tweet,
     sentences (clean_tweet tweet) = None ->
     counted sentences polarity tweet = O).
Proof.
  split; [|split].
  - revert c. induction page as [|t page IH]; intros c; simpl; [lia|].
    rewrite IH, analyze_tweet_tally. lia.
  - intros tweet ss Hss. unfold classifies, counted. rewrite Hss.
    apply counted_sentences_all.
  - intros tweet Hss. unfold counted. rewrite Hss. reflexivity.
Qed.

(** No tweet lowers a count. *)
Lemma analyze_tweet_monotone (c : counts) (tweet : str) :
  positive_tweets c <= positive_tweets (analyze_tweet sentences polarity c tweet) /\
  negative_tweets c <= negative_tweets (analyze_tweet sentences polarity c tweet) /\
  neutral_tweets c <= neutral_tweets (analyze_tweet sentences polarity c tweet) /\
  analyzed_tweets c <= analyzed_tweets (analyze_tweet sentences polarity c tweet).
Proof.
  assert (Hfor : forall ss c0,
    positive_tweets c0 <= positive_tweets (counts_of (for_sentences polarity ss c0)) /\
    negative_tweets c0 <= negative_tweets (counts_of (for_sentences polarity ss c0)) /\
    neutral_tweets c0 <= neutral_tweets (counts_of (for_sentences polarity ss c0))).
  { induction ss as [|s ss IH]; intros c0; simpl; [lia|].
    destruct (polarity s) as [p|]; simpl; [|lia].
    specialize (IH (count_polarity c0 p)).
    assert (Hp : positive_tweets c0 <= positive_tweets (count_polarity c0 p) /\
                 negative_tweets c0 <= negative_tweets (count_polarity c0 p) /\
                 neutral_tweets c0 <= neutral_tweets (count_polarity c0 p)).
    { unfold count_polarity.
      destruct (0 <? p)%float; [simpl; lia|].
      destruct (p <? 0)%float; simpl; lia. }
    lia. }
  rewrite analyze_tweet_analyzed.
  unfold analyze_tweet.
  destruct (sentences (clean_tweet tweet)) as [ss|].
  - specialize (Hfor ss (append_text c (clean_tweet tweet))).
    destruct (for_sentences polarity ss (append_text c (clean_tweet tweet)));
      simpl in *; destruct (classifies _ _ tweet); lia.
  - simpl. destruct (classifies _ _ tweet); lia.
Qed.

Lemma fold_analyze_tweet_monotone (page : list str) :
  forall c,
    positive_tweets c <=
      positive_tweets (fold_left (analyze_tweet sentences polarity) page c) /\
    negative_tweets c <=
      negative_tweets (fold_left (analyze_tweet sentences polarity) page c) /\
    neutral_tweets c <=
      neutral_tweets (fold_left (analyze_tweet sentences polarity) page c) /\
    analyzed_tweets c <=
      analyzed_tweets (fold_left (analyze_tweet sentences polarity) page c).
Proof.
  induction page as [|t page IH]; intros c; simpl; [lia|].
  pose proof (analyze_tweet_monotone c t).
  pose proof (IH (analyze_tweet sentences polarity c t)). lia.
Qed.

End PageFacts.

Section RunFacts.

Variable search : str -> nat -> list str.
Variable sentences : str -> option (list str).
Variable polarity : str -> option float.

Lemma join_word_or_space (l : list str) :
  Forall (Forall word_or_space) l ->
  Forall word_or_space (join (txt " ") l).
Proof.
  induction 1 as [|s l Hs Hl IH]; [constructor|].
  destruct l as [|s' l]; [exact Hs|].
  change (join (txt " ") (s :: s' :: l))
    with (s ++ txt " " ++ join (txt " ") (s' :: l)).
  apply Forall_app. split; [exact Hs|].
  apply Forall_app. split; [|exact IH].
  constructor; [right; reflexivity | constructor].
Qed.

(** What the analysis of a hashtag leaves behind. *)
Lemma analyze_hashtag_effects (fuel : nat) (hashtag : str) (n : Z) (w : world)
    (c : counts) (w' : world) :
  analyze_hashtag search sentences polarity fuel hashtag n w = Some (c, w') ->
  Forall (Forall word_or_space) (text c) /\
  analyzed_tweets c <= Z.of_nat (List.length (text c)) /\
  (0 <= positive_tweets c /\ 0 <= negative_tweets c /\
   0 <= neutral_tweets c /\ 0 <= analyzed_tweets c) /\
  word_clouds w' =
    word_clouds w ++ [(word_cloud_filename hashtag, join (txt " ") (text c))] /\
  exists sizes,
    requests w' = requests w ++ map (pair hashtag) sizes /\
    Forall (fun k => 1 <= k <= 100) sizes.
Proof.
  intros Hrun. apply analyze_hashtag_inv in Hrun. destruct Hrun as [w1 [Hrun ->]].
  apply (while_analyzing_invariant search sentences polarity
           (fun c w1 =>
              Forall (Forall word_or_space) (text c) /\
              analyzed_tweets c <= Z.of_nat (List.length (text c)) /\
              (0 <= positive_tweets c /\ 0 <= negative_tweets c /\
               0 <= neutral_tweets c /\ 0 <= analyzed_tweets c) /\
              word_clouds w1 = word_clouds w /\
              exists sizes,
                requests w1 = requests w ++ map (pair hashtag) sizes /\
                Forall (fun k => 1 <= k <= 100) sizes)) in Hrun.
  - destruct Hrun as [[Htext [Hlen [Hpos [Hclouds Hlog]]]] _].
    repeat split; try tauto.
    simpl. rewrite Hclouds. reflexivity.
  - intros c0 w0 [Htext [Hlen [Hpos [Hclouds [sizes [Hlog Hsizes]]]]]] Hlt.
    unfold analyze_page. cbn [fst snd].
    set (page := items (count_per_request n (analyzed_tweets c0) (n mod 100))
                   (search hashtag (List.length (requests w0)))).
    pose proof (fold_analyze_tweet_text sentences polarity page c0) as Ht.
    pose proof (fold_analyze_tweet_analyzed sentences polarity page c0) as Ha.
    pose proof (filter_length_le (classifies sentences polarity) page) as Hf.
    pose proof (fold_analyze_tweet_monotone sentences polarity page c0) as Hm.
    split; [|split; [|split; [|split]]].
    + rewrite Ht. apply Forall_app. split; [exact Htext|].
      apply Forall_forall. intros t Hin. apply in_map_iff in Hin.
      destruct Hin as [tweet [<- _]]. apply clean_tweet_word_or_space.
    + rewrite Ht, length_app, length_map. lia.
    + lia.
    + exact Hclouds.
    + exists (sizes ++ [count_per_request n (analyzed_tweets c0) (n mod 100)]).
      split.
      * simpl. rewrite Hlog, map_app, <- app_assoc. reflexivity.
      * apply Forall_app. split; [exact Hsizes|].
        constructor; [|constructor].
        pose proof (count_per_request_range n (analyzed_tweets c0) Hlt). tauto.
  - repeat split; simpl; try lia; try constructor.
    exists []. split; [symmetry; apply app_nil_r | constructor].
Qed.

(** X10: when the analysis of a hashtag with a positive target ends, the number
    of tweets analysed is at least the target and less than a hundred
    above it. *)
Theorem analyze_hashtag_ends_within_a_page (fuel : nat) (hashtag : str) (n : Z)
    (w : world) (c : counts) (w' : world) :
  0 < n ->
  analyze_hashtag search sentences polarity fuel hashtag n w = Some (c, w') ->
  n <= analyzed_tweets c < n + 100.
Proof.
  intros Hn Hrun. split.
  - apply (analyze_hashtag_target_reached _ _ _ _ _ _ _ _ _ Hrun).
  - apply (analyze_hashtag_overshoot _ _ _ _ _ _ _ _ _ Hn Hrun).
Qed.

(** X11: the word cloud of a hashtag is made from the cleaned texts of all the
    tweets its pages yielded, joined by spaces: a text of word characters
    and spaces only, saved as [Word_Cloud_] + hashtag + [.png]; the tweets
    analysed are never more than these texts. *)
Theorem analyze_hashtag_word_cloud (fuel : nat) (hashtag : str) (n : Z)
    (w : world) (c : counts) (w' : world) :
  analyze_hashtag search sentences polarity fuel hashtag n w = Some (c, w') ->
  word_clouds w' =
    word_clouds w ++
    [(txt "Word_Cloud_" ++ hashtag ++ txt ".png", join (txt " ") (text c))] /\
  Forall word_or_space (join (txt " ") (text c)) /\
  analyzed_tweets c <= Z.of_nat (List.length (text c)).
Proof.
  intros Hrun. apply analyze_hashtag_effects in Hrun.
  destruct Hrun as [Htext [Hlen [_ [Hclouds _]]]].
  split; [exact Hclouds|]. split; [|exact Hlen].
  apply join_word_or_space. exact Htext.
Qed.

(** What a run that analysed the hashtags in order leaves behind. *)
Lemma analyzed_in_order_effects (fuel : nat) (n : Z) (hashtags : list str)
    (w : world) (cs : list counts) (w' : world) :
  analyzed_in_order search sentences polarity fuel n hashtags w cs w' ->
  Forall (fun c => 0 <= positive_tweets c /\ 0 <= negative_tweets c /\
                   0 <= neutral_tweets c) cs /\
  map fst (word_clouds w') =
    map fst (word_clouds w) ++ map word_cloud_filename hashtags /\
  exists rs,
    requests w' = requests w ++ rs /\
    Forall (fun rq => In (fst rq) hashtags /\ 1 <= snd rq <= 100) rs.
Proof.
  induction 1 as [w|hashtag hashtags w c w1 cs w2 Hrun Hrest IH].
  - split; [constructor|]. split; [simpl; rewrite app_nil_r; reflexivity|].
    exists []. split; [symmetry; apply app_nil_r | constructor].
  - apply analyze_hashtag_effects in Hrun.
    destruct Hrun as [_ [_ [Hpos [Hclouds [sizes [Hlog Hsizes]]]]]].
    destruct IH as [Hcs [Hfiles [rs [Hlog' Hrs]]]].
    split; [constructor; [tauto | exact Hcs]|]. split.
    + rewrite Hfiles, Hclouds, map_app. simpl. rewrite <- app_assoc. reflexivity.
    + exists (map (pair hashtag) sizes ++ rs). split.
      * rewrite Hlog', Hlog, <- app_assoc. reflexivity.
      * apply Forall_app. split.
        -- apply Forall_forall. intros rq Hin. apply in_map_iff in Hin.
           destruct Hin as [k [<- Hk]]. simpl. split; [left; reflexivity|].
           rewrite Forall_forall in Hsizes. apply Hsizes. exact Hk.
        -- apply Forall_impl with (2 := Hrs).
           intros rq [Hin Hk]. split; [right; exact Hin | exact Hk].
Qed.

(** X12: no count of the dictionary a run returns is negative. *)
Theorem results_nonnegative (fuel : nat) (environ : str -> option str)
    (hashtags : list str) (n : Z) (w : world) (r : results) (w' : world) :
  get_tweets_and_sentiment search sentences polarity fuel environ hashtags n w =
  Some (Results r, w') ->
  Forall (fun k => 0 <= k) (positive r) /\
  Forall (fun k => 0 <= k) (negative r) /\
  Forall (fun k => 0 <= k) (neutral r).
Proof.
  intros Hrun. apply results_in_order in Hrun.
  destruct Hrun as [cs [Horder [-> [-> [-> _]]]]].
  apply analyzed_in_order_effects in Horder. destruct Horder as [Hcs _].
  repeat split; apply Forall_map; apply Forall_impl with (2 := Hcs); tauto.
Qed.

(** X13: a run that returns the dictionary searched for nothing but the given
    hashtags, asking each time for at least 1 and at most 100 tweets. *)
Theorem run_requests (fuel : nat) (environ : str -> option str)
    (hashtags : list str) (n : Z) (w : world) (r : results) (w' : world) :
  get_tweets_and_sentiment search sentences polarity fuel environ hashtags n w =
  Some (Results r, w') ->
  exists rs,
    requests w' = requests w ++ rs /\
    Forall (fun rq => In (fst rq) hashtags /\ 1 <= snd rq <= 100) rs.
Proof.
  intros Hrun. apply results_in_order in Hrun.
  destruct Hrun as [cs [Horder _]].
  apply analyzed_in_order_effects in Horder. tauto.
Qed.

(** X14: a run that returns the dictionary saved one word cloud per hashtag, in
    the order of the hashtags, each as [Word_Cloud_] + hashtag + [.png]. *)
Theorem run_word_clouds (fuel : nat) (environ : str -> option str)
    (hashtags : list str) (n : Z) (w : world) (r : results) (w' : world) :
  get_tweets_and_sentiment search sentences polarity fuel environ hashtags n w =
  Some (Results r, w') ->
  map fst (word_clouds w') =
  map fst (word_clouds w) ++
  map (fun hashtag => txt "Word_Cloud_" ++ hashtag ++ txt ".png") hashtags.
Proof.
  intros Hrun. apply results_in_order in Hrun.
  destruct Hrun as [cs [Horder _]].
  apply analyzed_in_order_effects in Horder. tauto.
Qed.

End RunFacts.

(** * The main block *)

(** The pattern of line 95 asks for the start of the string after two
    characters, so it matches nowhere. *)
Lemma junk_unmatched (pos : nat) (s : str) :
  match_anchored junk pos s = None.
Proof.
  unfold junk. cbn [match_anchored].
  destruct s as [|d s]; [reflexivity|].
  destruct (non_word d); [|reflexivity].
  cbn [skipn]. destruct s as [|e s]; [reflexivity|].
  cbn [match_at]. destruct (Ascii.eqb "&" e); [|reflexivity].
  replace (pos + 1 + 1)%nat with (S (S pos)) by lia.
  reflexivity.
Qed.

Lemma sub_anchored_junk (s : str) : sub_anchored junk [] s = s.
Proof.
  unfold sub_anchored.
  assert (H : forall pos, sub_anchored_from junk [] pos O s = s).
  { induction s as [|c s IH]; intros pos; [reflexivity|].
    cbn [sub_anchored_from]. rewrite junk_unmatched, IH. reflexivity. }
  apply H.
Qed.

(** X15: the substitution of line 95 removes nothing: whatever the user types,
    the hashtags are split from the input as it is. *)
Theorem junk_never_removed (hashtags_set : str) :
  sub_anchored junk [] hashtags_set = hashtags_set.
Proof. apply sub_anchored_junk. Qed.

Lemma split_from_nonempty (sep : ascii) (s : str) :
  forall piece, split_from sep piece s <> [].
Proof.
  induction s as [|c s IH]; intros piece; simpl; [discriminate|].
  destruct (Ascii.eqb c sep); [discriminate | apply IH].
Qed.

Lemma join_cons (sep s : str) (l : list str) :
  l <> [] -> join sep (s :: l) = s ++ sep ++ join sep l.
Proof. destruct l; [contradiction | reflexivity]. Qed.

(** Joining the pieces of a split with the separator gives the text back. *)
Lemma join_split_from (sep : ascii) (s : str) :
  forall piece, join [sep] (split_from sep piece s) = piece ++ s.
Proof.
  induction s as [|c s IH]; intros piece; simpl.
  - rewrite app_nil_r. reflexivity.
  - destruct (Ascii.eqb c sep) eqn:E.
    + apply Ascii.eqb_eq in E. subst c.
      rewrite join_cons by apply split_from_nonempty.
      rewrite IH. reflexivity.
    + rewrite IH, <- app_assoc. reflexivity.
Qed.

Lemma split_from_no_separator (sep : ascii) (s : str) :
  forall piece,
    ~ In sep piece ->
    Forall (fun x => ~ In sep x) (split_from sep piece s).
Proof.
  induction s as [|c s IH]; intros piece Hpiece; simpl.
  - constructor; [exact Hpiece | constructor].
  - destruct (Ascii.eqb c sep) eqn:E.
    + constructor; [exact Hpiece|]. apply IH. intros [].
    + apply IH. intros Hin. apply in_app_or in Hin.
      destruct Hin as [Hin | [<- | []]]; [contradiction|].
      rewrite Ascii.eqb_refl in E. discriminate.
Qed.

Lemma split_from_length (sep : ascii) (s : str) :
  forall piece,
    List.length (split_from sep piece s) = S (count_occ ascii_dec s sep).
Proof.
  induction s as [|c s IH]; intros piece; simpl; [reflexivity|].
  destruct (Ascii.eqb c sep) eqn:E.
  - apply Ascii.eqb_eq in E. subst c.
    destruct (ascii_dec sep sep); [|contradiction].
    simpl. rewrite IH. reflexivity.
  - apply Ascii.eqb_neq in E.
    destruct (ascii_dec c sep); [contradiction|]. apply IH.
Qed.

(** X16: the hashtags read from the input are its pieces between the commas,
    each behind a hash sign: one more hashtag than commas, none holding a
    comma, nothing trimmed or dropped, so that the pieces joined with
    commas are the input again. *)
Theorem read_hashtags_pieces (hashtags_set : str) :
  List.length (read_hashtags hashtags_set) =
    S (count_occ ascii_dec hashtags_set ","%char) /\
  Forall (fun hashtag =>
            exists piece, hashtag = "#"%char :: piece /\ ~ In ","%char piece)
         (read_hashtags hashtags_set) /\
  join (txt ",") (map (skipn 1) (read_hashtags hashtags_set)) = hashtags_set.
Proof.
  unfold read_hashtags. rewrite sub_anchored_junk. unfold split.
  split; [|split].
  - rewrite length_map. apply split_from_length.
  - apply Forall_map.
    apply Forall_impl with (2 := split_from_no_separator "," hashtags_set []
                                    (fun H => H)).
    intros piece Hpiece. exists piece. split; [reflexivity | exact Hpiece].
  - rewrite map_map. cbn [skipn]. rewrite map_id.
    apply (join_split_from "," hashtags_set []).
Qed.

Lemma replace_comma (s : str) : ~ In ","%char (replace "," "_" s).
Proof.
  unfold replace. intros Hin. apply in_map_iff in Hin.
  destruct Hin as [c [Hc _]].
  destruct (Ascii.eqb c ",") eqn:E; [discriminate|].
  subst c. rewrite Ascii.eqb_refl in E. discriminate.
Qed.

Lemma filename_no_comma (a b s : str) :
  ~ In ","%char a -> ~ In ","%char b ->
  ~ In ","%char (a ++ replace "," "_" s ++ b).
Proof.
  intros Ha Hb Hin. apply in_app_or in Hin. destruct Hin as [Hin | Hin]; [tauto|].
  apply in_app_or in Hin. destruct Hin as [Hin | Hin]; [|tauto].
  exact (replace_comma _ Hin).
Qed.

Section MainFacts.

Variable search : str -> nat -> list str.
Variable sentences : str -> option (list str).
Variable polarity : str -> option float.
Variable int : str -> option Z.

(** X18: when the main block plots, the bars and the table show the hashtags
    read from the input with, under each label, one count per hashtag; the
    names of the two files hold no comma. *)
Theorem main_figures (fuel : nat) (environ : str -> option str)
    (hashtags_set count : str) (w : world) (f : figures) (w' : world) :
  main search sentences polarity int fuel environ hashtags_set count w =
  Some (Plotted f, w') ->
  bar_x f = read_hashtags hashtags_set /\
  List.length (bar_positive f) = List.length (bar_x f) /\
  List.length (bar_negative f) = List.length (bar_x f) /\
  List.length (bar_neutral f) = List.length (bar_x f) /\
  table_cells f = (bar_x f, bar_positive f, bar_negative f, bar_neutral f) /\
  bar_filename f = txt "Bar_Plot_" ++ replace "," "_" hashtags_set ++ txt ".html" /\
  table_filename f = txt "Table_" ++ replace "," "_" hashtags_set ++ txt ".html" /\
  ~ In ","%char (bar_filename f) /\
  ~ In ","%char (table_filename f).
Proof.
  unfold main.
  destruct (int count) as [n|]; [|discriminate].
  destruct (get_tweets_and_sentiment search sentences polarity fuel environ
              (read_hashtags hashtags_set) n w) as [[[m|r] w1]|] eqn:Hrun;
    try discriminate.
  intros H. injection H as <- <-.
  cbn [bar_x bar_positive bar_negative bar_neutral table_cells bar_filename
       table_filename].
  apply results_in_order in Hrun.
  destruct Hrun as [cs [_ [_ [_ [_ [Hp [Hn Hu]]]]]]].
  split; [reflexivity|]. split; [exact Hp|]. split; [exact Hn|].
  split; [exact Hu|]. split; [reflexivity|]. split; [reflexivity|].
  split; [reflexivity|].
  split.
  - change (~ In ","%char
              (txt "Bar_Plot_" ++ replace "," "_" hashtags_set ++ txt ".html")).
    apply filename_no_comma; simpl; intuition discriminate.
  - change (~ In ","%char
              (txt "Table_" ++ replace "," "_" hashtags_set ++ txt ".html")).
    apply filename_no_comma; simpl; intuition discriminate.
Qed.

End MainFacts.

(** * These properties on concrete runs *)

Lemma clean_tweet_fixed_iff_witness :
  clean_tweet (txt "what a good day") = txt "what a good day".
Proof.
  apply (proj2 (clean_tweet_fixed_iff (txt "what a good day"))).
  repeat split; try reflexivity.
  repeat constructor; left; reflexivity.
Defined.

Lemma analyze_hashtag_ends_within_a_page_witness :
  exists c w',
    analyze_hashtag two_tweets each_word lexicon 2 (txt "#tag") 3 start =
    Some (c, w') /\
    3 <= analyzed_tweets c < 3 + 100.
Proof.
  destruct (analyze_hashtag two_tweets each_word lexicon 2 (txt "#tag") 3 start)
    as [[c w']|] eqn:E; [|vm_compute in E; discriminate].
  exists c, w'. split; [reflexivity|].
  apply (analyze_hashtag_ends_within_a_page two_tweets each_word lexicon 2
           (txt "#tag") 3 start c w' ltac:(lia) E).
Defined.

Lemma analyze_hashtag_word_cloud_witness :
  exists c w',
    analyze_hashtag two_tweets each_word lexicon 2 (txt "#tag") 3 start =
    Some (c, w') /\
    word_clouds w' =
      word_clouds start ++
      [(txt "Word_Cloud_" ++ txt "#tag" ++ txt ".png", join (txt " ") (text c))] /\
    Forall word_or_space (join (txt " ") (text c)) /\
    analyzed_tweets c <= Z.of_nat (List.length (text c)).
Proof.
  destruct (analyze_hashtag two_tweets each_word lexicon 2 (txt "#tag") 3 start)
    as [[c w']|] eqn:E; [|vm_compute in E; discriminate].
  exists c, w'. split; [reflexivity|].
  apply (analyze_hashtag_word_cloud two_tweets each_word lexicon 2
           (txt "#tag") 3 start c w' E).
Defined.

Lemma results_nonnegative_witness :
  exists r w',
    get_tweets_and_sentiment by_hashtag each_word lexicon 2 full_environ
      [txt "#cats"; txt "#dogs"] 2 start = Some (Results r, w') /\
    Forall (fun k => 0 <= k) (positive r) /\
    Forall (fun k => 0 <= k) (negative r) /\
    Forall (fun k => 0 <= k) (neutral r).
Proof.
  destruct (get_tweets_and_sentiment by_hashtag each_word lexicon 2 full_environ
              [txt "#cats"; txt "#dogs"] 2 start)
    as [[[m|r] w']|] eqn:E; try (vm_compute in E; discriminate).
  exists r, w'. split; [reflexivity|].
  apply (results_nonnegative by_hashtag each_word lexicon 2 full_environ
           [txt "#cats"; txt "#dogs"] 2 start r w' E).
Defined.

Lemma run_requests_witness :
  exists r w',
    get_tweets_and_sentiment by_hashtag each_word lexicon 2 full_environ
      [txt "#cats"; txt "#dogs"] 2 start = Some (Results r, w') /\
    exists rs,
      requests w' = requests start ++ rs /\
      Forall (fun rq => In (fst rq) [txt "#cats"; txt "#dogs"] /\
                        1 <= snd rq <= 100) rs.
Proof.
  destruct (get_tweets_and_sentiment by_hashtag each_word lexicon 2 full_environ
              [txt "#cats"; txt "#dogs"] 2 start)
    as [[[m|r] w']|] eqn:E; try (vm_compute in E; discriminate).
  exists r, w'. split; [reflexivity|].
  apply (run_requests by_hashtag each_word lexicon 2 full_environ
           [txt "#cats"; txt "#dogs"] 2 start r w' E).
Defined.

Lemma run_word_clouds_witness :
  exists r w',
    get_tweets_and_sentiment by_hashtag each_word lexicon 2 full_environ
      [txt "#cats"; txt "#dogs"] 2 start = Some (Results r, w') /\
    map fst (word_clouds w') =
      map fst (word_clouds start) ++
      map (fun hashtag => txt "Word_Cloud_" ++ hashtag ++ txt ".png")
        [txt "#cats"; txt "#dogs"].
Proof.
  destruct (get_tweets_and_sentiment by_hashtag each_word lexicon 2 full_environ
              [txt "#cats"; txt "#dogs"] 2 start)
    as [[[m|r] w']|] eqn:E; try (vm_compute in E; discriminate).
  exists r, w'. split; [reflexivity|].
  apply (run_word_clouds by_hashtag each_word lexicon 2 full_environ
           [txt "#cats"; txt "#dogs"] 2 start r w' E).
Defined.

Lemma main_figures_witness :
  exists f w',
    main by_hashtag each_word lexicon decimal 2 full_environ
      (txt "cats,dogs") (txt "2") start = Some (Plotted f, w') /\
    bar_x f = read_hashtags (txt "cats,dogs") /\
    List.length (bar_positive f) = List.length (bar_x f) /\
    ~ In ","%char (bar_filename f) /\
    ~ In ","%char (table_filename f).
Proof.
  destruct (main by_hashtag each_word lexicon decimal 2 full_environ
              (txt "cats,dogs") (txt "2") start)
    as [[[f|] w']|] eqn:E; try (vm_compute in E; discriminate).
  exists f, w'. split; [reflexivity|].
  destruct (main_figures by_hashtag each_word lexicon decimal 2 full_environ
              (txt "cats,dogs") (txt "2") start f w' E)
    as [Hx [Hp [_ [_ [_ [_ [_ [Hb Ht]]]]]]]].
  split; [exact Hx|]. split; [exact Hp|]. split; [exact Hb | exact Ht].
Defined.
